(** * oca-port: the preflight and dispatch layer of [oca_port/__init__.py]

    A shallow embedding of [main] and of its four helpers
    ([_check_remote], [_fetch_branches], [_check_branches],
    [_check_addon_exists]) over an explicit model of the git repository
    the command runs in.  The code is written in a small monad that
    threads the repository, raises exceptions and logs, in order, the
    calls made to the collaborators of this layer (GitPython,
    [misc.Branch], [misc.InputStorage] and the two workflows).

    What is not in [oca_port/__init__.py] is either a parameter of the
    program (the constructor of [misc.Branch], the colour table
    [misc.bcolors], what a workflow does when it is run) or a model of
    GitPython kept to what the code uses: the default arguments of
    [Repo.is_dirty], membership and indexing in [repo.remotes],
    membership in [repo.heads], [Remote.fetch] of one branch and
    [repo.commit] of a ref.  The command is taken to run inside a
    repository, so that [git.Repo()] succeeds. *)

From Stdlib Require Import Ascii String.
From stdpp Require Import base strings list gmap.

Open Scope string_scope.
Open Scope list_scope.

(** ** The repository as GitPython shows it *)

(** The root tree of a commit: [tree.trees] are its immediate
    sub-directories, [tree.blobs] its files.  Entries are given by their
    [path], which at the root is the bare directory or file name. *)
Record Commit := mkCommit {
  tree_trees : list string;
  tree_blobs : list string;
}.

(** A configured remote: its [url], what the server behind it serves
    ([None] when it cannot be reached), and the branches that the fetch
    refspec of its configuration covers: every branch ([None], the
    [+refs/heads/*:refs/remotes/<remote>/*] that [git clone] and
    [git remote add] write) or the listed ones only (one
    [+refs/heads/<b>:refs/remotes/<remote>/<b>] each, as
    [git clone --single-branch] and [git remote add -t <b>] write
    them). *)
Record Remote := mkRemote {
  url : string;
  served : option (gmap string Commit);
  tracked : option (list string);
}.

(** The fetch refspec of [x] covers [branch]. *)
Definition tracks (x : Remote) (branch : string) : bool :=
  match tracked x with
  | None => true
  | Some bs => bool_decide (branch ∈ bs)
  end.

(** The working repository [git.Repo()] of the current directory.
    [heads] are the local branches (refs/heads), [remote_refs] the
    remote-tracking refs (refs/remotes) keyed by ["remote/branch"]. *)
Record Repo := mkRepo {
  cwd_basename : string;
  staged : bool;
  unstaged : bool;
  untracked : bool;
  remotes : gmap string Remote;
  heads : gmap string Commit;
  remote_refs : gmap string Commit;
}.

Definition set_remote_refs (f : gmap string Commit → gmap string Commit)
    (r : Repo) : Repo :=
  {| cwd_basename := cwd_basename r; staged := staged r;
     unstaged := unstaged r; untracked := untracked r;
     remotes := remotes r; heads := heads r;
     remote_refs := f (remote_refs r) |}.

(** What a fetch of [branch] from the remote [x], configured as [rm],
    does to the repository once the server has answered with [c]: the
    remote-tracking ref of the branch moves when the fetch refspec
    covers the branch, and nothing moves when it does not (the commit
    is then in [FETCH_HEAD] only). *)
Definition track_ref (rm : string) (x : Remote) (branch : string) (c : Commit)
    (r : Repo) : Repo :=
  if tracks x branch
  then set_remote_refs (insert (rm +:+ "/" +:+ branch) c) r
  else r.

(** [Repo.is_dirty(index=True, working_tree=True, untracked_files=False)]
    of GitPython: the index against HEAD, then the working tree against
    the index, then the untracked files, each only when asked for. *)
Definition is_dirty (r : Repo) (index working_tree untracked_files : bool)
    : bool :=
  if index && staged r then true
  else if working_tree && unstaged r then true
  else if untracked_files && untracked r then true
  else false.

(** [repo.commit(rev)]: a local head of that name wins over a
    remote-tracking ref, as in git's own resolution order. *)
Definition rev_parse (r : Repo) (rev : string) : option Commit :=
  match heads r !! rev with
  | Some c => Some c
  | None => remote_refs r !! rev
  end.

(** ** Branch references *)

(** An object of [misc.Branch]: its [name] and its [remote] attribute
    ([None] or a string).  Its [repo] attribute is the one repository
    handle of the process, which the monad below threads. *)
Record Branch := mkBranch {
  name : string;
  remote : option string;
}.

(** Truth value of an optional string as Python's [if] takes it. *)
Definition truthy (o : option string) : bool :=
  match o with
  | None => false
  | Some "" => false
  | Some _ => true
  end.

(** Modelled from the spec: [misc.Branch.ref] ([oca_port/misc.py] is not
    among the sources).  "[ref()] renders the canonical identifier:
    [remote/name] if bound to a remote, else [name]." *)
Definition ref (b : Branch) : string :=
  match remote b with
  | None => name b
  | Some "" => name b
  | Some rm => rm +:+ "/" +:+ name b
  end.

(** A variable of [main] that holds a branch: the raw command-line
    string until [misc.Branch] has been built from it. *)
Inductive BranchVar :=
| Str (s : string)
| Obj (b : Branch).

(** The colour codes of [misc.bcolors] that the messages use. *)
Record bcolors := mkBcolors {
  FAIL : string;
  END : string;
  ENDC : string;
  DIM : string;
  BOLD : string;
}.

(** ** Command line, workflows, exceptions and the call log *)

Record Args := mkArgs {
  from_branch : string;
  to_branch : string;
  addon : string;
  upstream_org : string;
  upstream : string;
  repo_name : option string;
  fork : option string;
  user_org : option string;
  verbose : bool;
  non_interactive : bool;
}.

Inductive Workflow := MigrateAddon | PortAddonPullRequest.

(** [misc.InputStorage(to_branch, addon)], passed through unexamined. *)
Record InputStorage := mkInputStorage {
  storage_branch : BranchVar;
  storage_addon : string;
}.

(** The constructor arguments both workflows take (the repository
    handle is the threaded one). *)
Record WorkflowArgs := mkWorkflowArgs {
  wa_upstream_org : string;
  wa_repo_name : string;
  wa_from_branch : BranchVar;
  wa_to_branch : BranchVar;
  wa_fork : option string;
  wa_user_org : option string;
  wa_addon : string;
  wa_storage : InputStorage;
  wa_verbose : bool;
  wa_non_interactive : bool;
}.

Inductive Exception :=
| ClickException (msg : string)
| AttributeError (attr : string)
| IndexError (key : string)
| GitCommandError (rm branch : string)
| BadName (rev : string).

(** One entry per call this layer makes to a collaborator, in the order
    the calls are made. *)
Inductive Event :=
| EIsDirty
| EInRemotes (rm : string)
| ENewBranch (nm default_remote : string)
| EPrint (msg : string)
| EFetch (rm branch : string)
| EInHeads (nm : string)
| ECommit (rev : string)
| ENewInputStorage (b : BranchVar) (a : string)
| ERun (wf : Workflow) (a : WorkflowArgs).

(** ** The monad: repository threaded, calls logged, exceptions raised *)

Definition M (A : Type) : Type :=
  Repo → Repo * list Event * (Exception + A).

Definition ret {A} (a : A) : M A := λ r, (r, [], inr a).

Definition raise {A} (e : Exception) : M A := λ r, (r, [], inl e).

Definition bind {A B} (m : M A) (k : A → M B) : M B :=
  λ r,
    match m r with
    | (r1, log1, inl e) => (r1, log1, inl e)
    | (r1, log1, inr a) =>
        match k a r1 with
        | (r2, log2, res) => (r2, log1 ++ log2, res)
        end
    end.

Declare Scope py_scope.
Delimit Scope py_scope with py.
Notation "'let!' x ':=' m 'in' k" := (bind m (λ x, k))
  (at level 10, x name, m at level 100, k at level 200) : py_scope.
Notation "m ';;!' k" := (bind m (λ _, k))
  (at level 100, k at level 200, right associativity) : py_scope.
Open Scope py_scope.

Definition emit (e : Event) : M () := λ r, (r, [e], inr ()).

Definition get_repo : M Repo := λ r, (r, [], inr r).

(** *** Calls into GitPython *)

(** [repo.is_dirty()] *)
Definition repo_is_dirty : M bool :=
  emit EIsDirty ;;!
  let! r := get_repo in
  ret (is_dirty r true true false).

(** [remote in repo.remotes] *)
Definition in_remotes (rm : string) : M bool :=
  emit (EInRemotes rm) ;;!
  let! r := get_repo in
  ret (bool_decide (is_Some (remotes r !! rm))).

(** [repo.remotes[remote]]: an [IndexError] for an unknown name. *)
Definition remotes_getitem (rm : string) : M Remote :=
  let! r := get_repo in
  match remotes r !! rm with
  | Some x => ret x
  | None => raise (IndexError rm)
  end.

(** [repo.remotes[remote].fetch(branch)], that is
    [git fetch <remote> <branch>]: fails when the server cannot be
    reached or does not have the branch, and otherwise fetches that one
    branch, see [track_ref].  [branch] is taken to be the name of a
    branch: what git makes of an argument in refspec form ([src:dst])
    is not modelled. *)
Definition remote_fetch (rm : string) (x : Remote) (branch : string) : M () :=
  emit (EFetch rm branch) ;;!
  match served x with
  | None => raise (GitCommandError rm branch)
  | Some bs =>
      match bs !! branch with
      | None => raise (GitCommandError rm branch)
      | Some c => λ r, (track_ref rm x branch c r, [], inr ())
      end
  end.

(** [name in repo.heads] *)
Definition in_heads (nm : string) : M bool :=
  emit (EInHeads nm) ;;!
  let! r := get_repo in
  ret (bool_decide (is_Some (heads r !! nm))).

(** [repo.commit(rev)] *)
Definition repo_commit (rev : string) : M Commit :=
  emit (ECommit rev) ;;!
  let! r := get_repo in
  match rev_parse r rev with
  | Some c => ret c
  | None => raise (BadName rev)
  end.

Definition print (msg : string) : M () := emit (EPrint msg).

(** *** Attribute access on a branch variable *)

(** [branch.remote], [branch.name], [branch.repo], [branch.ref()]: a
    [str] has none of them.  The value of [branch.repo] is the threaded
    repository. *)
Definition attr_remote (v : BranchVar) : M (option string) :=
  match v with
  | Obj b => ret (remote b)
  | Str _ => raise (AttributeError "remote")
  end.

Definition attr_name (v : BranchVar) : M string :=
  match v with
  | Obj b => ret (name b)
  | Str _ => raise (AttributeError "name")
  end.

Definition attr_repo (v : BranchVar) : M () :=
  match v with
  | Obj _ => ret ()
  | Str _ => raise (AttributeError "repo")
  end.

Definition call_ref (v : BranchVar) : M string :=
  match v with
  | Obj b => ret (ref b)
  | Str _ => raise (AttributeError "ref")
  end.

(** ** The program *)

Definition NL : string := String "010"%char "".
Definition TAB : string := String "009"%char "".

(** [a or b] on an optional string. *)
Definition py_or (o : option string) (d : string) : string :=
  match o with
  | None => d
  | Some "" => d
  | Some s => s
  end.

Section Program.

(** The colour table [misc.bcolors]. *)
Variable bc : bcolors.

(** The constructor [misc.Branch(repo, name, default_remote=...)], which
    is not among the sources: from the repository, the raw name and
    the default remote it gives the branch object, or raises
    [ValueError(repo, remote)], of which the result keeps [remote]. *)
Variable new_Branch : Repo → string → string → string + Branch.

(** What [.run()] of a workflow does to the repository, and the
    exception it ends with, if any. *)
Variable workflow_run :
  Workflow → WorkflowArgs → Repo → Repo * option Exception.

Definition misc_Branch (nm default_remote : string) : M (string + Branch) :=
  emit (ENewBranch nm default_remote) ;;!
  let! r := get_repo in
  ret (new_Branch r nm default_remote).

Definition misc_InputStorage (b : BranchVar) (a : string) : M InputStorage :=
  emit (ENewInputStorage b a) ;;!
  ret (mkInputStorage b a).

Definition run (wf : Workflow) (wa : WorkflowArgs) : M () :=
  emit (ERun wf wa) ;;!
  λ r,
    match workflow_run wf wa r with
    | (r', Some e) => (r', [], inl e)
    | (r', None) => (r', [], inr ())
    end.

Definition remote_add_ssh (rm repo_name : string) : string :=
  "$ git remote add " +:+ rm +:+ " " +:+
  "git@github.com:" +:+ rm +:+ "/" +:+ repo_name +:+ ".git".

Definition remote_add_https (rm repo_name : string) : string :=
  "$ git remote add " +:+ rm +:+ " " +:+
  "https://github.com/" +:+ rm +:+ "/" +:+ repo_name +:+ ".git".

Definition no_remote_msg (repo_name rm : string) : string :=
  "No remote " +:+ FAIL bc +:+ rm +:+ END bc +:+
    " in the current repository." +:+ NL +:+
  "To add it:" +:+ NL +:+
  TAB +:+ "# This mode requires an SSH key in the GitHub account" +:+ NL +:+
  TAB +:+ DIM bc +:+ remote_add_ssh rm repo_name +:+ END bc +:+ NL +:+
  "   Or:" +:+ NL +:+
  TAB +:+ "# This will require to enter user/password each time" +:+ NL +:+
  TAB +:+ DIM bc +:+ remote_add_https rm repo_name +:+ END bc.

(** [_check_remote(repo_name, repo, remote, raise_exc=True)]; the
    result is [None] where the Python function falls off its end. *)
Definition _check_remote (repo_name rm : string) (raise_exc : bool)
    : M (option string) :=
  let! known := in_remotes rm in
  if negb known then
    let msg := no_remote_msg repo_name rm in
    if negb raise_exc then ret (Some msg)
    else raise (ClickException msg)
  else ret None.

Definition fetch_line (rf remote_url : string) : string :=
  "Fetch " +:+ BOLD bc +:+ rf +:+ END bc +:+ " from " +:+ remote_url.

(** [_fetch_branches], over its positional [branches] and [verbose] *)
Fixpoint _fetch_branches (branches : list BranchVar) (verbose : bool)
    : M () :=
  match branches with
  | [] => ret ()
  | branch :: rest =>
      let! rm := attr_remote branch in
      match rm with
      | None => _fetch_branches rest verbose
      | Some "" => _fetch_branches rest verbose
      | Some rm =>
          let! x := remotes_getitem rm in
          let remote_url := url x in
          (if verbose then
             let! rf := call_ref branch in
             print (fetch_line rf remote_url)
           else ret ()) ;;!
          let! x := remotes_getitem rm in
          let! nm := attr_name branch in
          remote_fetch rm x nm ;;!
          _fetch_branches rest verbose
      end
  end.

Definition no_source_branch_msg (rf : string) : string :=
  "No source branch " +:+ BOLD bc +:+ rf +:+ END bc +:+ " available.".

Definition no_target_branch_msg (nm rf : string) : string :=
  "No target branch " +:+ BOLD bc +:+ nm +:+ END bc +:+ " or " +:+
  BOLD bc +:+ rf +:+ END bc +:+ " available locally.".

Definition no_addon_msg (addon rf : string) : string :=
  FAIL bc +:+ addon +:+ ENDC bc +:+ " does not exist on " +:+ rf.

Definition dirty_msg : string :=
  "changes not committed detected in this repository.".

(** [_check_branches(from_branch, to_branch)] *)
Definition _check_branches (from_branch to_branch : BranchVar) : M bool :=
  let! frm := attr_remote from_branch in
  (if negb (truthy frm) then
     let! rf := call_ref from_branch in
     raise (ClickException (no_source_branch_msg rf))
   else ret ()) ;;!
  let! trm := attr_remote to_branch in
  let! missing :=
    (if negb (truthy trm) then
       let! nm := attr_name to_branch in
       let! known := in_heads nm in
       ret (negb known)
     else ret false) in
  (if (missing : bool) then
     let! nm := attr_name to_branch in
     let! rf := call_ref to_branch in
     raise (ClickException (no_target_branch_msg nm rf))
   else ret ()) ;;!
  ret true.

(** [_check_addon_exists(addon, branch, raise_exc=False)] *)
Definition _check_addon_exists (addon : string) (branch : BranchVar)
    (raise_exc : bool) : M bool :=
  attr_repo branch ;;!
  let! rf := call_ref branch in
  let! c := repo_commit rf in
  let branch_addons := tree_trees c in
  if negb (bool_decide (addon ∈ branch_addons)) then
    if negb raise_exc then ret false
    else
      let! rf := call_ref branch in
      raise (ClickException (no_addon_msg addon rf))
  else ret true.

Definition user_org_hint : string :=
  NL +:+ NL +:+ "You can change the GitHub organization with the " +:+
  DIM bc +:+ "--user-org" +:+ END bc +:+ " option.".

(** The [try] statement of [main]: both assignments, and the
    arguments of the [ValueError] that cut them short, if any.  A
    variable that was not assigned keeps its command-line string. *)
Definition parse_branches (a : Args)
    : M (BranchVar * BranchVar * option string) :=
  let! x := misc_Branch (from_branch a) (upstream a) in
  match x with
  | inl exc_args => ret (Str (from_branch a), Str (to_branch a), Some exc_args)
  | inr fb =>
      let! y := misc_Branch (to_branch a) (upstream a) in
      match y with
      | inl exc_args => ret (Obj fb, Str (to_branch a), Some exc_args)
      | inr tb => ret (Obj fb, Obj tb, None)
      end
  end.

(** [main(from_branch, to_branch, addon, upstream_org, upstream,
    repo_name, fork, user_org, verbose, non_interactive)] *)
Definition main (a : Args) : M () :=
  let! dirty := repo_is_dirty in
  (if (dirty : bool) then
     raise (ClickException dirty_msg)
   else ret ()) ;;!
  let! r := get_repo in
  let repo_name := py_or (repo_name a) (cwd_basename r) in
  let user_org := if negb (truthy (user_org a)) then fork a else user_org a in
  match fork a with
  | None => ret ()
  | Some "" => ret ()
  | Some fk =>
      let! error_msg := _check_remote repo_name fk false in
      match error_msg with
      | None => ret ()
      | Some "" => ret ()
      | Some msg => raise (ClickException (msg +:+ user_org_hint))
      end
  end ;;!
  let! parsed := parse_branches a in
  let '(from_branch, to_branch, exc) := parsed in
  match exc with
  | Some exc_args => _check_remote repo_name exc_args true ;;! ret ()
  | None => ret ()
  end ;;!
  _fetch_branches [from_branch; to_branch] (verbose a) ;;!
  _check_branches from_branch to_branch ;;!
  _check_addon_exists (addon a) from_branch true ;;!
  let! storage := misc_InputStorage to_branch (addon a) in
  let wa :=
    mkWorkflowArgs (upstream_org a) repo_name from_branch to_branch
      (fork a) user_org (addon a) storage (verbose a) (non_interactive a) in
  let! present := _check_addon_exists (addon a) to_branch false in
  if (present : bool) then run PortAddonPullRequest wa
  else run MigrateAddon wa.

(** *** Prefixes of [main]

    [preflight] is [main] up to and including [_check_branches]: the
    run as far as the two addon checks, with the local variables it
    has set.  [before_dispatch] goes on through the source addon check
    and the input storage, up to the [if] that dispatches. *)
Definition preflight (a : Args)
    : M (string * option string * BranchVar * BranchVar) :=
  let! dirty := repo_is_dirty in
  (if (dirty : bool) then
     raise (ClickException dirty_msg)
   else ret ()) ;;!
  let! r := get_repo in
  let repo_name := py_or (repo_name a) (cwd_basename r) in
  let user_org := if negb (truthy (user_org a)) then fork a else user_org a in
  match fork a with
  | None => ret ()
  | Some "" => ret ()
  | Some fk =>
      let! error_msg := _check_remote repo_name fk false in
      match error_msg with
      | None => ret ()
      | Some "" => ret ()
      | Some msg => raise (ClickException (msg +:+ user_org_hint))
      end
  end ;;!
  let! parsed := parse_branches a in
  let '(from_branch, to_branch, exc) := parsed in
  match exc with
  | Some exc_args => _check_remote repo_name exc_args true ;;! ret ()
  | None => ret ()
  end ;;!
  _fetch_branches [from_branch; to_branch] (verbose a) ;;!
  _check_branches from_branch to_branch ;;!
  ret (repo_name, user_org, from_branch, to_branch).

Definition before_dispatch (a : Args) : M WorkflowArgs :=
  let! locals := preflight a in
  let '(repo_name, user_org, from_branch, to_branch) := locals in
  _check_addon_exists (addon a) from_branch true ;;!
  let! storage := misc_InputStorage to_branch (addon a) in
  ret (mkWorkflowArgs (upstream_org a) repo_name from_branch to_branch
         (fork a) user_org (addon a) storage (verbose a)
         (non_interactive a)).

(** The [if] that ends [main]. *)
Definition dispatch (wa : WorkflowArgs) : M () :=
  let! present := _check_addon_exists (wa_addon wa) (wa_to_branch wa) false in
  if (present : bool) then run PortAddonPullRequest wa
  else run MigrateAddon wa.

End Program.

(** ** Reading the call log *)

(** The fetches of a log, as (remote, branch) pairs, in order. *)
Definition fetches (log : list Event) : list (string * string) :=
  omap (λ e, match e with EFetch rm b => Some (rm, b) | _ => None end) log.

(** The workflows run in a log, in order. *)
Definition runs (log : list Event) : list (Workflow * WorkflowArgs) :=
  omap (λ e, match e with ERun wf wa => Some (wf, wa) | _ => None end) log.

(** The (remote, branch) pairs of the references bound to a remote. *)
Definition bound_refs (bs : list Branch) : list (string * string) :=
  omap (λ b, match remote b with
             | None => None
             | Some "" => None
             | Some rm => Some (rm, name b)
             end) bs.

(** The fetch step gets past [b]: [b] is not bound to a remote, or its
    remote is configured and the server behind it has the branch. *)
Definition fetchable (rms : gmap string Remote) (b : Branch) : bool :=
  match remote b with
  | None => true
  | Some "" => true
  | Some rm =>
      match rms !! rm with
      | Some x => bool_decide (is_Some (served x ≫= (.!! name b)))
      | None => false
      end
  end.

(** [s] occurs in [msg]. *)
Definition contains (msg s : string) : Prop :=
  ∃ pre post, msg = pre +:+ s +:+ post.

(** The step of the run an event belongs to: dirty check, validation of
    a remote, branch resolution, fetch, branch existence check, addon
    checks (with the input storage built between them), dispatch. *)
Definition stage (e : Event) : nat :=
  match e with
  | EIsDirty => 0
  | EInRemotes _ => 1
  | ENewBranch _ _ => 2
  | EPrint _ | EFetch _ _ => 3
  | EInHeads _ => 4
  | ECommit _ | ENewInputStorage _ _ => 5
  | ERun _ _ => 6
  end.

(** The order of the steps as the data and control flow of the
    specification lists them: branch resolution first, then the dirty
    check, then remote validation, and the rest as in [stage]. *)
Definition stage_in_spec (e : Event) : nat :=
  match e with
  | ENewBranch _ _ => 0
  | EIsDirty => 1
  | EInRemotes _ => 2
  | _ => stage e
  end.

(** The log is in the order of the steps numbered by [st], from step
    [n] on. *)
Fixpoint in_order_by (st : Event → nat) (n : nat) (log : list Event) : bool :=
  match log with
  | [] => true
  | e :: log' => (n <=? st e)%nat && in_order_by st (st e) log'
  end.

(** The workflow a log shows to have been chosen, if any. *)
Definition dispatch_decision (log : list Event) : option Workflow :=
  head (runs log).*1.

(** Two repositories that differ at most in their untracked files and
    in where their remote-tracking refs stand: same directory, same
    tracked changes, same remotes serving the same branches, same local
    heads. *)
Definition same_repository (r r2 : Repo) : Prop :=
  cwd_basename r = cwd_basename r2 ∧
  staged r = staged r2 ∧ unstaged r = unstaged r2 ∧
  remotes r = remotes r2 ∧ heads r = heads r2.

(** A step of a run: the calls it makes, and whether the run goes on
    after it. *)
Definition Step : Type := list Event * bool.

(** The calls of a run that takes the steps in the order of the list,
    each only when every step before it has let the run go on. *)
Fixpoint calls_of (steps : list Step) : list Event :=
  match steps with
  | [] => []
  | (calls, goes_on) :: rest =>
      calls ++ (if (goes_on : bool) then calls_of rest else [])
  end.

(** The outcome is a result, not an exception. *)
Definition returned {A} (o : Repo * list Event * (Exception + A)) : bool :=
  match o.2 with
  | inr _ => true
  | inl _ => false
  end.

(** The kinds of call, as numbered by [stage], that each step of [main]
    may make; the handler of the branch resolution checks a remote. *)
Definition step_stages : list (list nat) :=
  [[0]; [1]; [2; 1]; [3]; [4]; [5]; [5]; [5]; [6]].

(** An outcome with [l] put in front of its log. *)
Definition prepend {A} (l : list Event)
    (o : Repo * list Event * (Exception + A))
    : Repo * list Event * (Exception + A) :=
  (o.1.1, l ++ o.1.2, o.2).

(** ** What the first steps of [main] come to

    The outcome of the steps before the fetch, read off the repository:
    these steps leave it as it is. *)
Section Outcome.
Variable bc : bcolors.
Variable new_Branch : Repo → string → string → string + Branch.

Definition resolved_repo_name (a : Args) (r : Repo) : string :=
  py_or (repo_name a) (cwd_basename r).

Definition resolved_user_org (a : Args) : option string :=
  if negb (truthy (user_org a)) then fork a else user_org a.

(** The call made to validate [--fork], and the message it fails with. *)
Definition fork_log (a : Args) : list Event :=
  match fork a with
  | None => []
  | Some "" => []
  | Some fk => [EInRemotes fk]
  end.

Definition fork_error (a : Args) (r : Repo) : option string :=
  match fork a with
  | None => None
  | Some "" => None
  | Some fk =>
      if bool_decide (is_Some (remotes r !! fk)) then None
      else Some (no_remote_msg bc (resolved_repo_name a r) fk +:+
                 user_org_hint bc)
  end.

(** The two branch variables after the [try] statement, and the
    arguments of the [ValueError] caught, if any. *)
Definition parse_vars (a : Args) (r : Repo)
    : BranchVar * BranchVar * option string :=
  match new_Branch r (from_branch a) (upstream a) with
  | inl rm => (Str (from_branch a), Str (to_branch a), Some rm)
  | inr fb =>
      match new_Branch r (to_branch a) (upstream a) with
      | inl rm => (Obj fb, Str (to_branch a), Some rm)
      | inr tb => (Obj fb, Obj tb, None)
      end
  end.

(** The calls of the [try] statement, its handler included. *)
Definition parse_log (a : Args) (r : Repo) : list Event :=
  match new_Branch r (from_branch a) (upstream a) with
  | inl rm => [ENewBranch (from_branch a) (upstream a); EInRemotes rm]
  | inr fb =>
      ENewBranch (from_branch a) (upstream a) ::
      ENewBranch (to_branch a) (upstream a) ::
      match new_Branch r (to_branch a) (upstream a) with
      | inl rm => [EInRemotes rm]
      | inr tb => []
      end
  end.

(** The message the handler of [ValueError] fails with. *)
Definition handler_error (a : Args) (r : Repo) : option string :=
  match (parse_vars a r).2 with
  | None => None
  | Some rm =>
      if bool_decide (is_Some (remotes r !! rm)) then None
      else Some (no_remote_msg bc (resolved_repo_name a r) rm)
  end.

(** The arguments both workflows are built with. *)
Definition workflow_args (a : Args) (r : Repo) (fb tb : Branch)
    : WorkflowArgs :=
  mkWorkflowArgs (upstream_org a) (resolved_repo_name a r) (Obj fb) (Obj tb)
    (fork a) (resolved_user_org a) (addon a)
    (mkInputStorage (Obj tb) (addon a)) (verbose a) (non_interactive a).

(** The call [_check_branches] makes for the target [tb]. *)
Definition heads_log (tb : Branch) : list Event :=
  if truthy (remote tb) then [] else [EInHeads (name tb)].

(** The conditions under which a run gets past [_check_branches]:
    [fb] and [tb] are the two branch objects, [r1] the repository
    after the fetch and [flog] the calls of the fetch. *)
Definition preflight_facts (a : Args) (r r1 : Repo) (fb tb : Branch)
    (flog : list Event) : Prop :=
  is_dirty r true true false = false ∧
  fork_error a r = None ∧
  new_Branch r (from_branch a) (upstream a) = inr fb ∧
  new_Branch r (to_branch a) (upstream a) = inr tb ∧
  _fetch_branches bc [Obj fb; Obj tb] (verbose a) r = (r1, flog, inr ()) ∧
  truthy (remote fb) = true ∧
  (truthy (remote tb) = false → is_Some (heads r1 !! name tb)).

Definition preflight_log (a : Args) (tb : Branch) (flog : list Event)
    : list Event :=
  EIsDirty :: fork_log a ++
  [ENewBranch (from_branch a) (upstream a);
   ENewBranch (to_branch a) (upstream a)] ++ flog ++ heads_log tb.

(** The calls of a run that gets as far as running a workflow. *)
Definition full_log (a : Args) (fb tb : Branch) (flog : list Event)
    (wf : Workflow) (wa : WorkflowArgs) : list Event :=
  EIsDirty :: fork_log a ++
  [ENewBranch (from_branch a) (upstream a);
   ENewBranch (to_branch a) (upstream a)] ++
  flog ++ heads_log tb ++
  [ECommit (ref fb); ENewInputStorage (Obj tb) (addon a);
   ECommit (ref tb); ERun wf wa].

(** The steps of [main] in the order it takes them, each with the
    calls it makes on the repository that the steps before it have
    left: the dirty check, the validation of the [--fork] remote, the
    resolution of the two branches (with the remote check of its error
    handler), the fetch, the branch existence check, the source addon
    check, the input storage, the target addon check and the
    dispatch. *)
Definition steps (a : Args) (r : Repo) : list Step :=
  let '(fbv, tbv, _) := parse_vars a r in
  let fetch := _fetch_branches bc [fbv; tbv] (verbose a) r in
  let r1 := fetch.1.1 in
  let exist := _check_branches bc fbv tbv r1 in
  let source := _check_addon_exists bc (addon a) fbv true r1 in
  let target := _check_addon_exists bc (addon a) tbv false r1 in
  let wf := match target.2 with
            | inr true => PortAddonPullRequest
            | _ => MigrateAddon
            end in
  let wa :=
    mkWorkflowArgs (upstream_org a) (resolved_repo_name a r) fbv tbv
      (fork a) (resolved_user_org a) (addon a)
      (mkInputStorage tbv (addon a)) (verbose a) (non_interactive a) in
  [ ([EIsDirty], negb (is_dirty r true true false));
    (fork_log a, bool_decide (fork_error a r = None));
    (parse_log a r, bool_decide (handler_error a r = None));
    (fetch.1.2, returned fetch);
    (exist.1.2, returned exist);
    (source.1.2, returned source);
    ([ENewInputStorage tbv (addon a)], true);
    (target.1.2, returned target);
    ([ERun wf wa], true) ].

End Outcome.

(** ** Searching a message *)

Fixpoint starts_with (s msg : string) : bool :=
  match s, msg with
  | "", _ => true
  | String c s', String d msg' => Ascii.eqb c d && starts_with s' msg'
  | String _ _, "" => false
  end.

(** [contains], decided. *)
Fixpoint occurs (s msg : string) : bool :=
  starts_with s msg ||
  match msg with
  | "" => false
  | String _ msg' => occurs s msg'
  end.

(** ** A branch constructor and a repository to run the program on *)

(** [s] cut at its first slash. *)
Fixpoint split_slash (s : string) : option (string * string) :=
  match s with
  | "" => None
  | String c rest =>
      if Ascii.eqb c "/"%char then Some ("", rest)
      else match split_slash rest with
           | Some (pre, post) => Some (String c pre, post)
           | None => None
           end
  end.

(** Modelled from the spec: the constructor of [misc.Branch]
    ([oca_port/misc.py] is not among the sources).  "If the name already
    has the form [<remote>/<branch>] and [<remote>] is a known remote,
    bind to that remote with the remainder as branch name.  Else if a
    local branch of that exact name exists, treat as a purely local
    reference (no bound remote) unless no default remote applies.  Else,
    assume the name refers to a branch on [defaultRemote]; if
    [defaultRemote] is not a valid remote, fail with a resolution error
    carrying [...] the offending remote name."  [main] always gives a
    default remote, the value of [--upstream]. *)
Definition Branch_of_spec (r : Repo) (nm default_remote : string)
    : string + Branch :=
  let by_default :=
    if bool_decide (is_Some (heads r !! nm)) then inr (mkBranch nm None)
    else if bool_decide (is_Some (remotes r !! default_remote))
         then inr (mkBranch nm (Some default_remote))
         else inl default_remote in
  match split_slash nm with
  | Some (rm, rest) =>
      if bool_decide (is_Some (remotes r !! rm))
      then inr (mkBranch rest (Some rm))
      else by_default
  | None => by_default
  end.

Definition ESC : string := String "027"%char "".

(** The ANSI codes of a colour table. *)
Definition ansi : bcolors :=
  {| FAIL := ESC +:+ "[91m"; END := ESC +:+ "[0m"; ENDC := ESC +:+ "[39m";
     DIM := ESC +:+ "[2m"; BOLD := ESC +:+ "[1m" |}.

(** A workflow that returns and leaves the repository as it found it. *)
Definition workflow_returns (wf : Workflow) (wa : WorkflowArgs) (r : Repo)
    : Repo * option Exception :=
  (r, None).

(** The 13.0 branch has the addon [shopfloor]; on 14.0 [shopfloor] is
    only a file, and the addon [stock_x] is on both. *)
Definition tree_13 : Commit :=
  {| tree_trees := ["shopfloor"; "stock_x"]; tree_blobs := ["README.md"] |}.

Definition tree_14 : Commit :=
  {| tree_trees := ["stock_x"]; tree_blobs := ["README.md"; "shopfloor"] |}.

Definition origin : Remote :=
  {| url := "git@github.com:OCA/wms.git";
     served := Some (<["13.0" := tree_13]> (<["14.0" := tree_14]> ∅));
     tracked := None |}.

(** A server that has lost its 13.0 branch. *)
Definition origin_without_13 : Remote :=
  {| url := "git@github.com:OCA/wms.git";
     served := Some (<["14.0" := tree_14]> ∅);
     tracked := None |}.

(** The same server as [git clone --single-branch --branch 13.0] has it
    configured: only 13.0 is tracked. *)
Definition origin_13_only : Remote :=
  {| url := "git@github.com:OCA/wms.git";
     served := Some (<["13.0" := tree_13]> (<["14.0" := tree_14]> ∅));
     tracked := Some ["13.0"] |}.

(** A clone of [wms] with untracked files only and nothing fetched yet. *)
Definition wms : Repo :=
  {| cwd_basename := "wms"; staged := false; unstaged := false;
     untracked := true; remotes := <["origin" := origin]> ∅;
     heads := ∅; remote_refs := ∅ |}.

(** The same clone with an edited file, and with both branches fetched
    a while ago, when 13.0 had [stock_x] only. *)
Definition wms_dirty : Repo :=
  {| cwd_basename := "wms"; staged := false; unstaged := true;
     untracked := false; remotes := <["origin" := origin]> ∅;
     heads := ∅;
     remote_refs := <["origin/13.0" := tree_14]> (<["origin/14.0" := tree_14]> ∅) |}.

(** The clean clone with a local branch [nm] cut from 14.0. *)
Definition wms_with_head (nm : string) : Repo :=
  {| cwd_basename := "wms"; staged := false; unstaged := false;
     untracked := false; remotes := <["origin" := origin]> ∅;
     heads := <[nm := tree_14]> ∅; remote_refs := ∅ |}.

(** The clean clone, its server without the 13.0 branch. *)
Definition wms_without_13 : Repo :=
  {| cwd_basename := "wms"; staged := false; unstaged := false;
     untracked := false; remotes := <["origin" := origin_without_13]> ∅;
     heads := ∅; remote_refs := ∅ |}.

(** A clean single-branch clone of 13.0. *)
Definition wms_13_only : Repo :=
  {| cwd_basename := "wms"; staged := false; unstaged := false;
     untracked := false; remotes := <["origin" := origin_13_only]> ∅;
     heads := <["13.0" := tree_13]> ∅;
     remote_refs := <["origin/13.0" := tree_13]> ∅ |}.

(** [oca-port 13.0 14.0 shopfloor] *)
Definition port_shopfloor : Args :=
  {| from_branch := "13.0"; to_branch := "14.0"; addon := "shopfloor";
     upstream_org := "OCA"; upstream := "origin"; repo_name := None;
     fork := None; user_org := None; verbose := false;
     non_interactive := false |}.

(** [oca-port 13.0 14.0 stock_x] *)
Definition port_stock_x : Args :=
  {| from_branch := "13.0"; to_branch := "14.0"; addon := "stock_x";
     upstream_org := "OCA"; upstream := "origin"; repo_name := None;
     fork := None; user_org := None; verbose := false;
     non_interactive := false |}.

(** [oca-port 13.0 14.0 shopfloor --fork camptocamp] *)
Definition port_shopfloor_fork : Args :=
  {| from_branch := "13.0"; to_branch := "14.0"; addon := "shopfloor";
     upstream_org := "OCA"; upstream := "origin"; repo_name := None;
     fork := Some "camptocamp"; user_org := None; verbose := false;
     non_interactive := false |}.

(** [oca-port origin/13.0 origin/14.0 shopfloor] *)
Definition port_shopfloor_remote : Args :=
  {| from_branch := "origin/13.0"; to_branch := "origin/14.0";
     addon := "shopfloor"; upstream_org := "OCA"; upstream := "origin";
     repo_name := None; fork := None; user_org := None; verbose := false;
     non_interactive := false |}.


Definition branch_13 : Branch := {| name := "13.0"; remote := Some "origin" |}.
Definition branch_14 : Branch := {| name := "14.0"; remote := Some "origin" |}.
Definition local_mig : Branch := {| name := "14.0-mig"; remote := None |}.

(** ** Comparing logs and repositories *)

Definition is_print (e : Event) : bool :=
  match e with
  | EPrint _ => true
  | _ => false
  end.

(** A log with its printed lines left out. *)
Definition without_prints (log : list Event) : list Event :=
  List.filter (λ e, negb (is_print e)) log.

(** [r'] is [r] but for its remote-tracking refs, of which it has kept
    the names. *)
Definition only_tracking_refs_moved (r r' : Repo) : Prop :=
  cwd_basename r' = cwd_basename r ∧
  staged r' = staged r ∧ unstaged r' = unstaged r ∧
  untracked r' = untracked r ∧
  remotes r' = remotes r ∧ heads r' = heads r ∧
  ∀ k, is_Some (remote_refs r !! k) → is_Some (remote_refs r' !! k).

(** Two command lines that name the same branches, addon, default
    remote and push remote; they may differ in [--upstream-org],
    [--repo-name], [--user-org], [--verbose] and [--non-interactive]. *)
Definition same_target (a a2 : Args) : Prop :=
  from_branch a2 = from_branch a ∧ to_branch a2 = to_branch a ∧
  addon a2 = addon a ∧ upstream a2 = upstream a ∧ fork a2 = fork a.

(** [oca-port 13.0 14.0 shopfloor --upstream nowhere] *)
Definition port_from_nowhere : Args :=
  {| from_branch := "13.0"; to_branch := "14.0"; addon := "shopfloor";
     upstream_org := "OCA"; upstream := "nowhere"; repo_name := None;
     fork := None; user_org := None; verbose := false;
     non_interactive := false |}.

(** [oca-port 13.0 14.0 shopfloor --repo-name wms-fork --user-org acme
    --verbose --non-interactive] *)
Definition port_shopfloor_loud : Args :=
  {| from_branch := "13.0"; to_branch := "14.0"; addon := "shopfloor";
     upstream_org := "acme-upstream"; upstream := "origin";
     repo_name := Some "wms-fork"; fork := None; user_org := Some "acme";
     verbose := true; non_interactive := true |}.

(** * Proofs *)

(** ** The monad *)

Lemma bind_assoc {A B C} (m : M A) (f : A → M B) (g : B → M C) r :
  bind (bind m f) g r = bind m (λ x, bind (f x) g) r.
Proof.
  unfold bind. destruct (m r) as [[r1 l1] [e|x]]; [done|].
  destruct (f x r1) as [[r2 l2] [e|y]]; [done|].
  destruct (g y r2) as [[r3 l3] res]. by rewrite app_assoc.
Qed.

Lemma bind_ret_l {A B} (x : A) (f : A → M B) r : bind (ret x) f r = f x r.
Proof. unfold bind, ret. by destruct (f x r) as [[r2 l2] res]. Qed.

Lemma bind_raise {A B} e (f : A → M B) r :
  bind (raise e) f r = (r, [], inl e).
Proof. reflexivity. Qed.

Lemma bind_ext {A B} (m : M A) (f g : A → M B) r :
  (∀ x r', f x r' = g x r') → bind m f r = bind m g r.
Proof.
  intros H. unfold bind. destruct (m r) as [[r1 l1] [e|x]]; [done|].
  by rewrite H.
Qed.

Lemma bind_emit {B} e (f : () → M B) r :
  bind (emit e) f r = let '(r2, l2, res) := f () r in (r2, e :: l2, res).
Proof. reflexivity. Qed.

Lemma bind_get_repo {B} (f : Repo → M B) r : bind get_repo f r = f r r.
Proof. unfold bind, get_repo. by destruct (f r r) as [[r2 l2] res]. Qed.

(** How a sequence ends, from how its first part does. *)
Lemma bind_inl {A B} (m : M A) (k : A → M B) r r1 l1 e :
  m r = (r1, l1, inl e) → bind m k r = (r1, l1, inl e).
Proof. intros H. unfold bind. by rewrite H. Qed.

Lemma bind_ok_inv {A B} (m : M A) (k : A → M B) r r2 l y :
  bind m k r = (r2, l, inr y) →
  ∃ r1 l1 x l2,
    m r = (r1, l1, inr x) ∧ k x r1 = (r2, l2, inr y) ∧ l = l1 ++ l2.
Proof.
  unfold bind. destruct (m r) as [[r1 l1] [e|x]]; [done|].
  destruct (k x r1) as [[r2' l2] res] eqn:Hk. intros [= -> <- ->].
  by exists r1, l1, x, l2.
Qed.

Ltac bind_norm := repeat (rewrite bind_assoc || rewrite bind_ret_l); cbv beta.
Ltac bind_step := bind_norm; try reflexivity; apply bind_ext; intros ? ?.

(** ** The repository *)

Lemma set_remote_refs_id f r : (∀ m, f m = m) → set_remote_refs f r = r.
Proof. intros H. destruct r. unfold set_remote_refs. simpl. by rewrite H. Qed.

Lemma set_remote_refs_compose f g r :
  set_remote_refs f (set_remote_refs g r) = set_remote_refs (f ∘ g) r.
Proof. reflexivity. Qed.

Lemma set_remote_refs_ext f g r :
  (∀ m, f m = g m) → set_remote_refs f r = set_remote_refs g r.
Proof. intros H. unfold set_remote_refs. by rewrite H. Qed.

Lemma track_ref_remotes rm x nm c r :
  remotes (track_ref rm x nm c r) = remotes r.
Proof. unfold track_ref. by destruct (tracks x nm). Qed.

Lemma fetchable_unbound rms b : truthy (remote b) = false → fetchable rms b = true.
Proof. unfold fetchable, truthy. by destruct (remote b) as [[|c s]|]. Qed.

Lemma fetchable_bound rms b rm :
  remote b = Some rm → rm ≠ "" →
  fetchable rms b
  = match rms !! rm with
    | Some x => bool_decide (is_Some (served x ≫= (.!! name b)))
    | None => false
    end.
Proof. unfold fetchable. intros ->. by destruct rm. Qed.

Lemma ref_unbound b : truthy (remote b) = false → ref b = name b.
Proof. unfold ref, truthy. by destruct (remote b) as [[|c s]|]. Qed.

Lemma truthy_Some o : truthy o = true → ∃ rm, o = Some rm ∧ rm ≠ "".
Proof. destruct o as [[|c s]|]; [done| |done]. intros _. by eexists. Qed.

(** ** Messages *)

Lemma append_assoc (s1 s2 s3 : string) :
  (s1 +:+ s2) +:+ s3 = s1 +:+ s2 +:+ s3.
Proof.
  induction s1 as [|c s1 IH]; [done|].
  change (String c ((s1 +:+ s2) +:+ s3) = String c (s1 +:+ s2 +:+ s3)).
  by f_equal.
Qed.

Lemma append_nil_r (s : string) : s +:+ "" = s.
Proof.
  induction s as [|c s IH]; [done|].
  change (String c (s +:+ "") = String c s). by f_equal.
Qed.

Lemma contains_refl s : contains s s.
Proof. exists "", "". by rewrite append_nil_r. Qed.

Lemma contains_here s post : contains (s +:+ post) s.
Proof. by exists "", post. Qed.

Lemma contains_append_r p msg s : contains msg s → contains (p +:+ msg) s.
Proof.
  intros (pre & post & ->). exists (p +:+ pre), post.
  by rewrite append_assoc.
Qed.

Lemma contains_append_l q msg s : contains msg s → contains (msg +:+ q) s.
Proof.
  intros (pre & post & ->). exists pre, (post +:+ q).
  by rewrite !append_assoc.
Qed.

(** Finds a part of a message built by [+:+]. *)
Ltac find_part :=
  first [ apply contains_refl
        | apply contains_here
        | apply contains_append_r; find_part ].

Lemma starts_with_append s post : starts_with s (s +:+ post) = true.
Proof.
  induction s as [|c s IH]; [done|].
  change (String c s +:+ post) with (String c (s +:+ post)). simpl.
  by rewrite Ascii.eqb_refl, IH.
Qed.

Lemma occurs_unfold s msg :
  occurs s msg =
  starts_with s msg ||
  match msg with
  | "" => false
  | String _ msg' => occurs s msg'
  end.
Proof. by destruct msg. Qed.

Lemma contains_occurs msg s : contains msg s → occurs s msg = true.
Proof.
  intros (pre & post & ->). induction pre as [|c pre IH].
  - change ("" +:+ s +:+ post) with (s +:+ post).
    by rewrite occurs_unfold, starts_with_append.
  - change (String c pre +:+ s +:+ post)
      with (String c (pre +:+ s +:+ post)).
    rewrite occurs_unfold, IH. apply orb_true_r.
Qed.

Section Run.
Variable bc : bcolors.
Variable new_Branch : Repo → string → string → string + Branch.
Variable workflow_run :
  Workflow → WorkflowArgs → Repo → Repo * option Exception.

Lemma main_before_dispatch a r :
  main bc new_Branch workflow_run a r
  = bind (before_dispatch bc new_Branch a) (dispatch bc workflow_run) r.
Proof.
  unfold main, before_dispatch, preflight, dispatch.
  repeat bind_step.
  match goal with x : _ * _ * _ |- _ => destruct x as [[fb tb] exc] end.
  repeat bind_step.
Qed.

(** *** The fetch loop *)

Lemma fetch_branches_str s bs v r :
  _fetch_branches bc (Str s :: bs) v r = (r, [], inl (AttributeError "remote")).
Proof. reflexivity. Qed.

Lemma fetch_branches_unbound b bs v r :
  truthy (remote b) = false →
  _fetch_branches bc (Obj b :: bs) v r = _fetch_branches bc bs v r.
Proof.
  intros Hb. simpl. rewrite bind_ret_l. unfold truthy in Hb.
  by destruct (remote b) as [[|c s]|].
Qed.

(** One turn of the loop on a reference bound to [rm]. *)
Lemma fetch_branches_bound b bs v r rm :
  remote b = Some rm → rm ≠ "" →
  _fetch_branches bc (Obj b :: bs) v r =
  match remotes r !! rm with
  | None => (r, [], inl (IndexError rm))
  | Some x =>
      let plog := if v then [EPrint (fetch_line bc (ref b) (url x))] else [] in
      match served x ≫= (.!! name b) with
      | None =>
          (r, plog ++ [EFetch rm (name b)],
           inl (GitCommandError rm (name b)))
      | Some c =>
          let '(r2, l2, res) :=
            _fetch_branches bc bs v
              (track_ref rm x (name b) c r) in
          (r2, plog ++ EFetch rm (name b) :: l2, res)
      end
  end.
Proof.
  intros Hrm Hne.
  transitivity (
    bind (remotes_getitem rm) (λ x,
      bind (if v then
              bind (call_ref (Obj b)) (λ rf,
                print (fetch_line bc rf (url x)))
            else ret ()) (λ _,
      bind (remotes_getitem rm) (λ x,
      bind (attr_name (Obj b)) (λ nm,
      bind (remote_fetch rm x nm) (λ _,
      _fetch_branches bc bs v))))) r).
  { simpl. rewrite bind_ret_l. rewrite Hrm.
    destruct rm as [|c s]; [done|reflexivity]. }
  unfold remotes_getitem at 1. rewrite bind_assoc, bind_get_repo.
  destruct (remotes r !! rm) as [x|] eqn:Hx; [|done].
  rewrite bind_ret_l.
  assert (Hrest :
    bind (remotes_getitem rm) (λ x,
      bind (attr_name (Obj b)) (λ nm,
      bind (remote_fetch rm x nm) (λ _, _fetch_branches bc bs v))) r
    = match served x ≫= (.!! name b) with
      | None =>
          (r, [EFetch rm (name b)], inl (GitCommandError rm (name b)))
      | Some c =>
          let '(r2, l2, res) :=
            _fetch_branches bc bs v
              (track_ref rm x (name b) c r) in
          (r2, EFetch rm (name b) :: l2, res)
      end).
  { unfold remotes_getitem. rewrite bind_assoc, bind_get_repo, Hx.
    rewrite bind_ret_l. simpl attr_name. rewrite bind_ret_l.
    unfold remote_fetch. rewrite bind_assoc, bind_emit.
    destruct (served x) as [srv|]; [|done]. simpl.
    destruct (srv !! name b) as [c|]; [|done].
    unfold bind. by destruct (_fetch_branches _ _ _ _) as [[r2 l2] res]. }
  destruct v.
  - simpl call_ref. rewrite bind_assoc, bind_ret_l.
    unfold print. rewrite bind_emit, Hrest.
    destruct (served x ≫= _) as [c|]; [|done].
    by destruct (_fetch_branches _ _ _ _) as [[r2 l2] res].
  - rewrite bind_ret_l, Hrest.
    destruct (served x ≫= _) as [c|]; [|done].
    by destruct (_fetch_branches _ _ _ _) as [[r2 l2] res].
Qed.

(** What the loop does is fixed by the configured remotes [rms]: it
    lays a map [fetched] of remote-tracking refs over those of the
    repository, and its log and its result depend on nothing else. *)
Lemma fetch_branches_union bs v (rms : gmap string Remote) :
  ∃ (fetched : gmap string Commit) log res,
    (∀ r, remotes r = rms →
       _fetch_branches bc bs v r = (set_remote_refs (fetched ∪.) r, log, res)) ∧
    (res = inr () → ∀ b, Obj b ∈ bs → fetchable rms b = true) ∧
    (res = inr () → ∀ b, b ∈ bs → ∃ b', b = Obj b') ∧
    Forall (λ e, stage e = 3) log.
Proof.
  assert (Hnone : ∀ (l : list Event) (o : Exception + ()) (r : Repo),
    (r, l, o) = (set_remote_refs (union (∅ : gmap string Commit)) r, l, o)).
  { intros l o r. f_equal. f_equal. symmetry. apply set_remote_refs_id.
    intros m. by rewrite (left_id_L ∅ (∪)). }
  induction bs as [|b bs IH].
  { exists ∅, [], (inr ()). split_and!; [|by inversion 2|by inversion 2|done].
    intros r _. apply Hnone. }
  destruct IH as (fetched & log & res & Hrun & Hok & Hobj & Hlog).
  destruct b as [s|b].
  { exists ∅, [], (inl (AttributeError "remote")).
    split_and!; [|done|done|done]. intros r _. apply Hnone. }
  destruct (truthy (remote b)) eqn:Hb; cycle 1.
  { exists fetched, log, res. split_and!; [| | |done].
    - intros r Hr. rewrite fetch_branches_unbound by done. by apply Hrun.
    - intros Hres b0 [Hb0|Hb0]%elem_of_cons; [|by apply Hok].
      injection Hb0 as ->. by apply fetchable_unbound.
    - intros Hres b0 [->|Hb0]%elem_of_cons; [by eexists|by apply Hobj]. }
  destruct (truthy_Some _ Hb) as (rm & Hrm & Hne).
  destruct (rms !! rm) as [x|] eqn:Hx; cycle 1.
  { exists ∅, [], (inl (IndexError rm)). split_and!; [|done|done|done].
    intros r Hr. rewrite (fetch_branches_bound _ _ _ _ _ Hrm Hne), Hr, Hx.
    apply Hnone. }
  set (plog := if v then [EPrint (fetch_line bc (ref b) (url x))] else []).
  assert (Hplog : Forall (λ e, stage e = 3) plog).
  { unfold plog. destruct v; repeat constructor. }
  destruct (served x ≫= (.!! name b)) as [c|] eqn:Hc; cycle 1.
  { exists ∅, (plog ++ [EFetch rm (name b)]),
      (inl (GitCommandError rm (name b))).
    split_and!; [|done|done|].
    - intros r Hr.
      rewrite (fetch_branches_bound _ _ _ _ _ Hrm Hne), Hr, Hx. simpl.
      rewrite Hc. apply Hnone.
    - apply Forall_app. split; [done|]. by repeat constructor. }
  assert (Hmoved : ∃ moved : gmap string Commit, ∀ r,
    track_ref rm x (name b) c r = set_remote_refs (moved ∪.) r).
  { unfold track_ref. destruct (tracks x (name b)).
    - exists {[ rm +:+ "/" +:+ name b := c ]}. intros r.
      apply set_remote_refs_ext. intros m.
      by rewrite insert_union_singleton_l.
    - exists ∅. intros r. symmetry. apply set_remote_refs_id.
      intros m. by rewrite (left_id_L ∅ (∪)). }
  destruct Hmoved as [moved Hmoved].
  exists (fetched ∪ moved), (plog ++ EFetch rm (name b) :: log), res.
  split_and!.
  - intros r Hr.
    rewrite (fetch_branches_bound _ _ _ _ _ Hrm Hne), Hr, Hx. simpl.
    rewrite Hc. rewrite (Hrun (track_ref rm x (name b) c r))
      by by rewrite track_ref_remotes.
    rewrite Hmoved, set_remote_refs_compose. f_equal. f_equal.
    apply set_remote_refs_ext. intros m. simpl.
    by rewrite (assoc_L (∪)).
  - intros Hres b0 [Hb0|Hb0]%elem_of_cons; [|by apply Hok].
    injection Hb0 as ->. rewrite (fetchable_bound _ _ _ Hrm Hne), Hx.
    apply bool_decide_eq_true_2. by rewrite Hc.
  - intros Hres b0 [->|Hb0]%elem_of_cons; [by eexists|by apply Hobj].
  - apply Forall_app. split; [done|]. by constructor.
Qed.

Lemma fetch_log_stage bs v r :
  Forall (λ e, stage e = 3) (_fetch_branches bc bs v r).1.2.
Proof.
  destruct (fetch_branches_union bs v (remotes r))
    as (fetched & log & res & Hrun & _ & _ & Hlog).
  by rewrite (Hrun r eq_refl).
Qed.

(** *** The steps, one by one *)

Lemma repo_is_dirty_eq r :
  repo_is_dirty r = (r, [EIsDirty], inr (is_dirty r true true false)).
Proof. reflexivity. Qed.

Lemma no_remote_msg_cons rn rm :
  ∃ c s, no_remote_msg bc rn rm = String c s.
Proof. unfold no_remote_msg. simpl. eauto. Qed.

Lemma check_remote_eq rn rm rx r :
  _check_remote bc rn rm rx r =
  (r, [EInRemotes rm],
   if bool_decide (is_Some (remotes r !! rm)) then inr None
   else if rx then inl (ClickException (no_remote_msg bc rn rm))
        else inr (Some (no_remote_msg bc rn rm))).
Proof.
  unfold _check_remote, in_remotes, bind, emit, get_repo, ret. simpl.
  destruct (bool_decide _); [done|]. by destruct rx.
Qed.

Lemma check_branches_obj fb tb r :
  _check_branches bc (Obj fb) (Obj tb) r =
  if negb (truthy (remote fb)) then
    (r, [], inl (ClickException (no_source_branch_msg bc (ref fb))))
  else if truthy (remote tb) then (r, [], inr true)
  else (r, [EInHeads (name tb)],
        if bool_decide (is_Some (heads r !! name tb)) then inr true
        else inl (ClickException
                    (no_target_branch_msg bc (name tb) (ref tb)))).
Proof.
  unfold _check_branches, in_heads, bind, emit, get_repo, ret. simpl.
  destruct (truthy (remote fb)); [|done]. simpl.
  destruct (truthy (remote tb)); [done|]. simpl.
  by destruct (bool_decide _).
Qed.

Lemma check_branches_state fbv tbv r :
  (_check_branches bc fbv tbv r).1.1 = r ∧
  Forall (λ e, stage e = 4) (_check_branches bc fbv tbv r).1.2.
Proof.
  destruct fbv as [s|fb]; [done|]. destruct tbv as [s|tb].
  { unfold _check_branches, bind, ret. simpl.
    by destruct (truthy (remote fb)). }
  rewrite check_branches_obj. destruct (truthy (remote fb)); [|done]. simpl.
  destruct (truthy (remote tb)); [done|]. split; [done|].
  by repeat constructor.
Qed.

Lemma check_addon_exists_obj ad b rx r :
  _check_addon_exists bc ad (Obj b) rx r =
  (r, [ECommit (ref b)],
   match rev_parse r (ref b) with
   | None => inl (BadName (ref b))
   | Some c =>
       if bool_decide (ad ∈ tree_trees c) then inr true
       else if rx then inl (ClickException (no_addon_msg bc ad (ref b)))
            else inr false
   end).
Proof.
  unfold _check_addon_exists, attr_repo, repo_commit, bind, emit, get_repo,
    ret. simpl.
  destruct (rev_parse r (ref b)) as [c|]; [|done]. simpl.
  destruct (bool_decide _); [done|]. by destruct rx.
Qed.

Lemma check_addon_exists_state ad bv rx r :
  (_check_addon_exists bc ad bv rx r).1.1 = r ∧
  Forall (λ e, stage e = 5) (_check_addon_exists bc ad bv rx r).1.2.
Proof.
  destruct bv as [s|b]; [done|]. rewrite check_addon_exists_obj.
  split; [done|]. by repeat constructor.
Qed.

Lemma parse_branches_eq a r :
  ∃ l, parse_branches new_Branch a r = (r, l, inr (parse_vars new_Branch a r)) ∧
       parse_log new_Branch a r
       = l ++ match (parse_vars new_Branch a r).2 with
              | Some rm => [EInRemotes rm]
              | None => []
              end.
Proof.
  unfold parse_branches, parse_vars, parse_log, misc_Branch, bind, emit,
    get_repo, ret. simpl.
  destruct (new_Branch r (from_branch a) (upstream a)) as [rm|fb]; simpl.
  { by eexists. }
  destruct (new_Branch r (to_branch a) (upstream a)) as [rm|tb]; simpl;
    by eexists.
Qed.

Lemma prepend_prepend {A} l1 l2 (o : Repo * list Event * (Exception + A)) :
  prepend l1 (prepend l2 o) = prepend (l1 ++ l2) o.
Proof. unfold prepend. simpl. by rewrite app_assoc. Qed.

Lemma prepend_nil {A} (o : Repo * list Event * (Exception + A)) :
  prepend [] o = o.
Proof. by destruct o as [[r l] res]. Qed.

Lemma bind_prepend {A B} (m : M A) (k : A → M B) r r1 l1 x :
  m r = (r1, l1, inr x) → bind m k r = prepend l1 (k x r1).
Proof.
  intros H. unfold bind, prepend. rewrite H.
  by destruct (k x r1) as [[r2 l2] res].
Qed.

(** *** The run up to the addon checks *)

Lemma preflight_eval a r :
  preflight bc new_Branch a r =
  if is_dirty r true true false then
    (r, [EIsDirty], inl (ClickException dirty_msg))
  else
    match fork_error bc a r with
    | Some msg => (r, EIsDirty :: fork_log a, inl (ClickException msg))
    | None =>
        match handler_error bc new_Branch a r with
        | Some msg =>
            (r, EIsDirty :: fork_log a ++ parse_log new_Branch a r,
             inl (ClickException msg))
        | None =>
            let '(fbv, tbv, _) := parse_vars new_Branch a r in
            prepend (EIsDirty :: fork_log a ++ parse_log new_Branch a r)
              (bind (_fetch_branches bc [fbv; tbv] (verbose a)) (λ _,
               bind (_check_branches bc fbv tbv) (λ _,
               ret (resolved_repo_name a r, resolved_user_org a,
                    fbv, tbv))) r)
        end
    end.
Proof.
  unfold preflight.
  rewrite (bind_prepend _ _ _ _ _ _ (repo_is_dirty_eq r)).
  destruct (is_dirty r true true false); [done|].
  rewrite bind_ret_l, bind_get_repo. cbv zeta.
  fold (resolved_repo_name a r). fold (resolved_user_org a).
  set (rn := resolved_repo_name a r).
  assert (Hfork : ∀ B (k : () → M B),
    bind (match fork a with
          | None => ret ()
          | Some "" => ret ()
          | Some fk =>
              bind (_check_remote bc rn fk false) (λ error_msg,
                match error_msg with
                | None => ret ()
                | Some "" => ret ()
                | Some msg => raise (ClickException (msg +:+ user_org_hint bc))
                end)
          end) k r
    = match fork_error bc a r with
      | Some msg => (r, fork_log a, inl (ClickException msg))
      | None => prepend (fork_log a) (k () r)
      end).
  { intros B k. unfold fork_error, fork_log. fold rn.
    destruct (fork a) as [[|c fk]|]; try by rewrite bind_ret_l, prepend_nil.
    rewrite bind_assoc.
    pose proof (check_remote_eq rn (String c fk) false r) as H.
    destruct (bool_decide _).
    - rewrite (bind_prepend _ _ _ _ _ _ H). by rewrite bind_ret_l.
    - rewrite (bind_prepend _ _ _ _ _ _ H).
      destruct (no_remote_msg_cons rn (String c fk)) as (c' & s' & ->).
      by rewrite bind_raise. }
  rewrite Hfork. clear Hfork.
  destruct (fork_error bc a r) as [msg|]; [done|].
  rewrite prepend_prepend.
  destruct (parse_branches_eq a r) as (l & Hp & Hl).
  rewrite (bind_prepend _ _ _ _ _ _ Hp), prepend_prepend.
  unfold handler_error. rewrite Hl.
  destruct (parse_vars new_Branch a r) as [[fbv tbv] [rm|]]; cbn [snd].
  - rewrite !bind_assoc. fold rn.
    pose proof (check_remote_eq rn rm true r) as H.
    destruct (bool_decide _).
    + rewrite (bind_prepend _ _ _ _ _ _ H), prepend_prepend.
      rewrite !bind_ret_l. f_equal.
      by rewrite <- app_comm_cons, <- app_assoc.
    + rewrite (bind_inl _ _ _ _ _ _ H). unfold prepend. cbn [fst snd].
      by rewrite <- app_comm_cons, <- app_assoc.
  - rewrite bind_ret_l. by rewrite app_nil_r.
Qed.


Lemma fetch_check_ok_iff {X} fbv tbv v (x : X) r r1 l y :
  bind (_fetch_branches bc [fbv; tbv] v) (λ _,
    bind (_check_branches bc fbv tbv) (λ _, ret x)) r = (r1, l, inr y)
  ↔ ∃ fb tb flog,
      fbv = Obj fb ∧ tbv = Obj tb ∧ y = x ∧
      _fetch_branches bc [Obj fb; Obj tb] v r = (r1, flog, inr ()) ∧
      truthy (remote fb) = true ∧
      (truthy (remote tb) = false → is_Some (heads r1 !! name tb)) ∧
      l = flog ++ heads_log tb.
Proof.
  split.
  - intros H. apply bind_ok_inv in H as (r' & flog & [] & l2 & Hf & H & ->).
    apply bind_ok_inv in H as (r2 & l3 & ok & l4 & Hc & H & ->).
    injection H as -> <- <-.
    destruct fbv as [s|fb]; [by rewrite fetch_branches_str in Hf|].
    destruct tbv as [s|tb].
    { unfold _check_branches, bind, ret in Hc. simpl in Hc.
      by destruct (truthy (remote fb)). }
    exists fb, tb, flog. rewrite check_branches_obj in Hc.
    unfold heads_log.
    destruct (truthy (remote fb)); [|done]. simpl in Hc.
    destruct (truthy (remote tb)).
    + injection Hc as -> <- <-. by rewrite ?app_nil_r.
    + destruct (bool_decide (is_Some (heads r' !! name tb))) eqn:Hh; [|done].
      injection Hc as -> <- <-. apply bool_decide_eq_true in Hh.
      by rewrite ?app_nil_r.
  - intros (fb & tb & flog & -> & -> & -> & Hf & Hfb & Htb & ->).
    rewrite (bind_prepend _ _ _ _ _ _ Hf).
    unfold bind. rewrite check_branches_obj, Hfb. simpl. unfold heads_log.
    destruct (truthy (remote tb)).
    + unfold prepend, ret. simpl. by rewrite ?app_nil_r.
    + rewrite bool_decide_eq_true_2 by auto. unfold prepend, ret. simpl.
      by rewrite ?app_nil_r.
Qed.

Lemma preflight_ok_iff a r r1 log1 x :
  preflight bc new_Branch a r = (r1, log1, inr x)
  ↔ ∃ fb tb flog,
      preflight_facts bc new_Branch a r r1 fb tb flog ∧
      x = (resolved_repo_name a r, resolved_user_org a, Obj fb, Obj tb) ∧
      log1 = preflight_log a tb flog.
Proof.
  rewrite preflight_eval. unfold preflight_facts, preflight_log.
  destruct (is_dirty r true true false).
  { split; [done|]. by intros (? & ? & ? & (? & _) & _). }
  destruct (fork_error bc a r) as [msg|].
  { split; [done|]. by intros (? & ? & ? & (_ & ? & _) & _). }
  unfold handler_error, parse_vars, parse_log.
  destruct (new_Branch r (from_branch a) (upstream a)) as [rm|fb].
  { split.
    - cbn [snd]. destruct (bool_decide _); [|done].
      unfold prepend. intros H.
      destruct (bind _ _ r) as [[r' l'] res] eqn:Hb.
      injection H as -> <- ->.
      apply fetch_check_ok_iff in Hb as (? & ? & ? & ? & _). done.
    - by intros (? & ? & ? & (_ & _ & ? & _) & _). }
  destruct (new_Branch r (to_branch a) (upstream a)) as [rm|tb].
  { split.
    - cbn [snd]. destruct (bool_decide _); [|done].
      unfold prepend. intros H.
      destruct (bind _ _ r) as [[r' l'] res] eqn:Hb.
      injection H as -> <- ->.
      apply fetch_check_ok_iff in Hb as (? & ? & ? & _ & ? & _). done.
    - by intros (? & ? & ? & (_ & _ & _ & ? & _) & _). }
  cbn [snd]. unfold prepend. split.
  - intros H. destruct (bind _ _ r) as [[r' l'] res] eqn:Hb.
    cbn [fst snd] in H. injection H as -> <- ->.
    apply fetch_check_ok_iff in Hb
      as (fb' & tb' & flog & [= <-] & [= <-] & -> & Hf & Hfb & Htb & ->).
    exists fb, tb, flog. split_and!; try done.
    by rewrite <- ?app_comm_cons, <- ?app_assoc.
  - intros (fb' & tb' & flog & (_ & _ & [= <-] & [= <-] & Hf & Hfb & Htb)
            & -> & ->).
    erewrite (proj2 (fetch_check_ok_iff _ _ _ _ _ _ _ _)); cycle 1.
    { exists fb, tb, flog. by split_and!. }
    cbn [fst snd]. by rewrite <- ?app_comm_cons, <- ?app_assoc.
Qed.


(** After a preflight that passed, the repository is the one the run
    started in but for its remote-tracking refs, and both branches
    could be fetched. *)
Lemma preflight_facts_repo a r r1 fb tb flog :
  preflight_facts bc new_Branch a r r1 fb tb flog →
  ∃ fetched : gmap string Commit,
    r1 = set_remote_refs (fetched ∪.) r ∧
    (∀ r', remotes r' = remotes r →
       _fetch_branches bc [Obj fb; Obj tb] (verbose a) r'
       = (set_remote_refs (fetched ∪.) r', flog, inr ())) ∧
    fetchable (remotes r) fb = true ∧
    fetchable (remotes r) tb = true ∧
    Forall (λ e, stage e = 3) flog.
Proof.
  intros (_ & _ & _ & _ & Hf & Hfb & _).
  destruct (fetch_branches_union [Obj fb; Obj tb] (verbose a) (remotes r))
    as (fetched & log & res & Hrun & Hok & _ & Hlog).
  rewrite (Hrun r eq_refl) in Hf. injection Hf as <- -> ->.
  exists fetched. split_and!; [done|done| | |done].
  - apply Hok; [done|]. apply elem_of_cons. by left.
  - apply Hok; [done|]. apply elem_of_cons. right. apply elem_of_cons. by left.
Qed.

(** The repository before the dispatch is the one the preflight
    left. *)
Lemma preflight_state a r r1 l x :
  preflight bc new_Branch a r = (r1, l, inr x) →
  (before_dispatch bc new_Branch a r).1.1 = r1.
Proof.
  intros H. unfold before_dispatch. rewrite (bind_prepend _ _ _ _ _ _ H).
  destruct x as [[[rn uo] fbv] tbv]. cbv beta iota. unfold prepend.
  cbn [fst snd]. unfold bind.
  pose proof (check_addon_exists_state (addon a) fbv true r1) as [Hst _].
  destruct (_check_addon_exists bc (addon a) fbv true r1) as [[r2 l2] [e|ok]];
    cbn [fst snd] in *; by subst.
Qed.

(** *** Logs without a workflow *)

Lemma runs_app l1 l2 : runs (l1 ++ l2) = runs l1 ++ runs l2.
Proof. apply omap_app. Qed.

Lemma runs_below l : Forall (λ e, (stage e ≤ 5)%nat) l → runs l = [].
Proof.
  induction 1 as [|e l He _ IH]; [done|].
  destruct e; simpl in He; try lia; exact IH.
Qed.

Lemma fork_log_stage a : Forall (λ e, stage e = 1) (fork_log a).
Proof.
  unfold fork_log. destruct (fork a) as [[|c s]|]; repeat constructor.
Qed.

Lemma heads_log_stage tb : Forall (λ e, stage e = 4) (heads_log tb).
Proof.
  unfold heads_log. destruct (truthy (remote tb)); repeat constructor.
Qed.

Lemma preflight_log_below a tb flog :
  Forall (λ e, stage e = 3) flog →
  Forall (λ e, (stage e ≤ 4)%nat) (preflight_log a tb flog).
Proof.
  intros Hflog. unfold preflight_log.
  constructor; [simpl; lia|]. rewrite !Forall_app. split_and!.
  - eapply Forall_impl; [apply fork_log_stage|]. simpl. lia.
  - repeat constructor; simpl; lia.
  - eapply Forall_impl; [apply Hflog|]. simpl. lia.
  - eapply Forall_impl; [apply heads_log_stage|]. simpl. lia.
Qed.

Lemma runs_full_log a fb tb flog wf wa :
  Forall (λ e, stage e = 3) flog →
  runs (full_log a fb tb flog wf wa) = [(wf, wa)].
Proof.
  intros Hflog.
  replace (full_log a fb tb flog wf wa)
    with ((preflight_log a tb flog ++
           [ECommit (ref fb); ENewInputStorage (Obj tb) (addon a);
            ECommit (ref tb)]) ++ [ERun wf wa]).
  - rewrite runs_app, runs_below; [done|]. apply Forall_app. split.
    + eapply Forall_impl; [by apply preflight_log_below|]. simpl. lia.
    + repeat constructor.
  - unfold full_log, preflight_log.
    repeat (progress (rewrite <- ?app_assoc; cbn [app])). done.
Qed.

(** *** The run up to the dispatch *)

Lemma before_dispatch_ok_iff a r r1 log1 wa :
  before_dispatch bc new_Branch a r = (r1, log1, inr wa)
  ↔ ∃ fb tb flog c,
      preflight_facts bc new_Branch a r r1 fb tb flog ∧
      rev_parse r1 (ref fb) = Some c ∧ addon a ∈ tree_trees c ∧
      wa = workflow_args a r fb tb ∧
      log1 = preflight_log a tb flog ++
             [ECommit (ref fb); ENewInputStorage (Obj tb) (addon a)].
Proof.
  unfold before_dispatch. split.
  - intros H. apply bind_ok_inv in H as (r' & l1 & x & l2 & Hp & H & ->).
    apply preflight_ok_iff in Hp as (fb & tb & flog & Hfacts & -> & ->).
    apply bind_ok_inv in H as (r2 & l3 & ok & l4 & Hc & H & ->).
    rewrite check_addon_exists_obj in Hc.
    destruct (rev_parse r' (ref fb)) as [c|] eqn:Hrev; [|done].
    destruct (bool_decide (addon a ∈ tree_trees c)) eqn:Hin; [|done].
    injection Hc as <- <- <-. apply bool_decide_eq_true in Hin.
    unfold misc_InputStorage, bind, emit, ret in H. simpl in H.
    injection H as <- <- <-.
    by exists fb, tb, flog, c.
  - intros (fb & tb & flog & c & Hfacts & Hrev & Hin & -> & ->).
    erewrite bind_prepend; cycle 1.
    { apply preflight_ok_iff. by exists fb, tb, flog. }
    cbv beta iota. unfold bind. rewrite check_addon_exists_obj, Hrev.
    by rewrite bool_decide_eq_true_2.
Qed.

(** What the dispatch comes to once the target resolves. *)
Lemma dispatch_eval wa tb c r :
  wa_to_branch wa = Obj tb → rev_parse r (ref tb) = Some c →
  dispatch bc workflow_run wa r =
  let wf := if bool_decide (wa_addon wa ∈ tree_trees c)
            then PortAddonPullRequest else MigrateAddon in
  (( workflow_run wf wa r).1, [ECommit (ref tb); ERun wf wa],
   match (workflow_run wf wa r).2 with
   | Some e => inl e
   | None => inr ()
   end).
Proof.
  intros Htb Hrev. unfold dispatch. rewrite Htb.
  unfold bind. rewrite check_addon_exists_obj, Hrev.
  destruct (bool_decide _); unfold run, bind, emit; simpl;
    by destruct (workflow_run _ wa r) as [r2 [e|]].
Qed.


(** What it comes to when the target does not resolve. *)
Lemma dispatch_eval_none wa tb r :
  wa_to_branch wa = Obj tb → rev_parse r (ref tb) = None →
  dispatch bc workflow_run wa r
  = (r, [ECommit (ref tb)], inl (BadName (ref tb))).
Proof.
  intros Htb Hrev. unfold dispatch. rewrite Htb.
  unfold bind. by rewrite check_addon_exists_obj, Hrev.
Qed.

(** A run that stops before the dispatch ends as its first part does. *)
Lemma main_stops a r r1 l1 e :
  before_dispatch bc new_Branch a r = (r1, l1, inl e) →
  main bc new_Branch workflow_run a r = (r1, l1, inl e).
Proof. intros H. rewrite main_before_dispatch. by apply bind_inl. Qed.

(** A run that gets past the dispatch, in full. *)
Lemma main_dispatched a r r1 fb tb flog cf ct :
  preflight_facts bc new_Branch a r r1 fb tb flog →
  rev_parse r1 (ref fb) = Some cf → addon a ∈ tree_trees cf →
  rev_parse r1 (ref tb) = Some ct →
  let wf := if bool_decide (addon a ∈ tree_trees ct)
            then PortAddonPullRequest else MigrateAddon in
  let wa := workflow_args a r fb tb in
  main bc new_Branch workflow_run a r
  = ((workflow_run wf wa r1).1, full_log a fb tb flog wf wa,
     match (workflow_run wf wa r1).2 with
     | Some e => inl e
     | None => inr ()
     end).
Proof.
  intros Hfacts Hcf Hin Hct wf wa.
  assert (Hb : before_dispatch bc new_Branch a r
    = (r1, preflight_log a tb flog ++
           [ECommit (ref fb); ENewInputStorage (Obj tb) (addon a)], inr wa)).
  { apply before_dispatch_ok_iff. by exists fb, tb, flog, cf. }
  rewrite main_before_dispatch, (bind_prepend _ _ _ _ _ _ Hb).
  rewrite (dispatch_eval _ tb ct r1) by done.
  subst wf wa. unfold prepend. cbn [fst snd].
  unfold full_log, preflight_log.
  repeat (progress (rewrite <- ?app_assoc; cbn [app])). done.
Qed.

Lemma run_log wf wa r : (run workflow_run wf wa r).1.2 = [ERun wf wa].
Proof. unfold run, bind, emit. by destruct (workflow_run wf wa r) as [r2 [e|]]. Qed.

(** *** Logs grow *)

Lemma bind_log_prefix {A B} (m : M A) (k : A → M B) r :
  (m r).1.2 `prefix_of` (bind m k r).1.2.
Proof.
  unfold bind. destruct (m r) as [[r1 l1] [e|x]]; [done|].
  destruct (k x r1) as [[r2 l2] res]. simpl. by apply prefix_app_r.
Qed.

Lemma preflight_log_prefix a r :
  (preflight bc new_Branch a r).1.2
  `prefix_of` (main bc new_Branch workflow_run a r).1.2.
Proof.
  rewrite main_before_dispatch. unfold before_dispatch.
  etrans; [|apply bind_log_prefix]. apply bind_log_prefix.
Qed.

Lemma is_dirty_default r :
  is_dirty r true true false = staged r || unstaged r.
Proof. unfold is_dirty. by destruct (staged r), (unstaged r). Qed.

(** A run on a dirty repository. *)
Lemma main_dirty a r :
  is_dirty r true true false = true →
  main bc new_Branch workflow_run a r
  = (r, [EIsDirty], inl (ClickException dirty_msg)).
Proof.
  intros Hd. rewrite main_before_dispatch. unfold before_dispatch.
  apply bind_inl, bind_inl. by rewrite preflight_eval, Hd.
Qed.

(** A run on a clean one goes on to a second call. *)
Lemma preflight_clean a r :
  is_dirty r true true false = false →
  ∃ e l, (preflight bc new_Branch a r).1.2 = EIsDirty :: e :: l.
Proof.
  intros Hd. rewrite preflight_eval, Hd.
  assert (Hparse : ∃ e l, parse_log new_Branch a r = e :: l).
  { unfold parse_log. destruct (new_Branch r _ _); by eexists _, _. }
  destruct Hparse as (e & l & Hparse).
  assert (Hboth : ∀ l', ∃ e' l'',
    fork_log a ++ parse_log new_Branch a r ++ l' = e' :: l'').
  { intros l'. rewrite Hparse. destruct (fork_log a); by eexists _, _. }
  destruct (fork_error bc a r) as [msg|] eqn:Hfork.
  { unfold fork_error, fork_log in *.
    destruct (fork a) as [[|c s]|]; try done. by eexists _, _. }
  destruct (handler_error bc new_Branch a r).
  { simpl. destruct (Hboth []) as (e' & l' & Hl).
    rewrite app_nil_r in Hl. rewrite Hl. by eexists _, _. }
  destruct (parse_vars new_Branch a r) as [[fbv tbv] exc].
  unfold prepend. cbn [fst snd].
  rewrite <- app_comm_cons, <- app_assoc.
  destruct (Hboth (bind (_fetch_branches bc [fbv; tbv] (verbose a)) (λ _,
    bind (_check_branches bc fbv tbv) (λ _,
      ret (resolved_repo_name a r, resolved_user_org a, fbv, tbv))) r).1.2)
    as (e' & l' & ->).
  by eexists _, _.
Qed.

(** *** Logs by step *)

(** Nothing before the dispatch is above the addon checks. *)
Lemma before_dispatch_below a r :
  Forall (λ e, (stage e ≤ 5)%nat) (before_dispatch bc new_Branch a r).1.2.
Proof.
  assert (Hbind : ∀ {A B} (m : M A) (k : A → M B) r0,
    Forall (λ e, (stage e ≤ 5)%nat) (m r0).1.2 →
    (∀ r1 x, Forall (λ e, (stage e ≤ 5)%nat) (k x r1).1.2) →
    Forall (λ e, (stage e ≤ 5)%nat) (bind m k r0).1.2).
  { intros A B m k r0 Hm Hk. unfold bind.
    destruct (m r0) as [[r1 l1] [e|x]]; [done|]. specialize (Hk r1 x).
    destruct (k x r1) as [[r2 l2] res]. simpl in *. by apply Forall_app. }
  assert (Hweak : ∀ n (l : list Event),
    (n ≤ 5)%nat → Forall (λ e, stage e = n) l →
    Forall (λ e, (stage e ≤ 5)%nat) l).
  { intros n l Hn H. eapply Forall_impl; [done|]. simpl. lia. }
  unfold before_dispatch. apply Hbind.
  - rewrite preflight_eval. destruct (is_dirty r true true false).
    { by repeat constructor. }
    assert (Hfork : Forall (λ e, (stage e ≤ 5)%nat) (EIsDirty :: fork_log a)).
    { constructor; [simpl; lia|].
      eapply Forall_impl; [apply fork_log_stage|]. simpl. lia. }
    destruct (fork_error bc a r); [done|].
    assert (Hparse : Forall (λ e, (stage e ≤ 5)%nat)
                       (EIsDirty :: fork_log a ++ parse_log new_Branch a r)).
    { rewrite app_comm_cons. apply Forall_app. split; [done|].
      unfold parse_log. destruct (new_Branch r (from_branch a) _).
      { repeat constructor; simpl; lia. }
      destruct (new_Branch r (to_branch a) _);
        repeat constructor; simpl; lia. }
    destruct (handler_error bc new_Branch a r); [done|].
    destruct (parse_vars new_Branch a r) as [[fbv tbv] exc].
    unfold prepend. cbn [fst snd]. apply Forall_app. split; [done|].
    apply Hbind; [apply (Hweak 3); [lia|apply fetch_log_stage]|].
    intros r1 _. apply Hbind.
    + apply (Hweak 4); [lia|apply check_branches_state].
    + done.
  - intros r1 [[[rn uo] fbv] tbv]. apply Hbind.
    + apply (Hweak 5); [lia|apply check_addon_exists_state].
    + intros r2 _. unfold misc_InputStorage, bind, emit, ret. simpl.
      repeat constructor.
Qed.

(** A run either ends with an exception and without a workflow, or gets
    past the dispatch with the log and the workflow that the target
    tree fixes. *)
Lemma main_cases a r :
  (runs (main bc new_Branch workflow_run a r).1.2 = [] ∧
   ∃ e, (main bc new_Branch workflow_run a r).2 = inl e) ∨
  (∃ r1 fb tb flog cf ct,
     preflight_facts bc new_Branch a r r1 fb tb flog ∧
     rev_parse r1 (ref fb) = Some cf ∧ addon a ∈ tree_trees cf ∧
     rev_parse r1 (ref tb) = Some ct ∧
     let wf := if bool_decide (addon a ∈ tree_trees ct)
               then PortAddonPullRequest else MigrateAddon in
     (main bc new_Branch workflow_run a r).1.2
     = full_log a fb tb flog wf (workflow_args a r fb tb)).
Proof.
  pose proof (before_dispatch_below a r) as Hbelow.
  destruct (before_dispatch bc new_Branch a r) as [[r1 l1] [e|wa]] eqn:Hb.
  - left. rewrite main_before_dispatch, (bind_inl _ _ _ _ _ _ Hb).
    split; [by apply runs_below|by eexists].
  - pose proof Hb as Hb'.
    apply before_dispatch_ok_iff in Hb'
      as (fb & tb & flog & cf & Hfacts & Hrev & Hin & -> & ->).
    rewrite main_before_dispatch, (bind_prepend _ _ _ _ _ _ Hb).
    destruct (rev_parse r1 (ref tb)) as [ct|] eqn:Hct.
    + right. exists r1, fb, tb, flog, cf, ct. split_and!; try done.
      rewrite (dispatch_eval _ tb ct r1) by done.
      cbn [prepend fst snd]. unfold full_log, preflight_log.
      repeat (progress (rewrite <- ?app_assoc; cbn [app])). done.
    + left. rewrite (dispatch_eval_none _ tb r1) by done.
      unfold prepend. cbn [fst snd]. split; [|by eexists].
      rewrite runs_app, runs_below by done. done.
Qed.

(** *** Two runs on the same repository *)

Lemma rev_parse_same_refs (fetched : gmap string Commit) r r2 k :
  heads r = heads r2 →
  remote_refs r2 !! k = remote_refs r !! k ∨
  remote_refs r2 !! k = (fetched ∪ remote_refs r) !! k →
  rev_parse (set_remote_refs (fetched ∪.) r2) k
  = rev_parse (set_remote_refs (fetched ∪.) r) k.
Proof.
  intros Hh Hk. unfold rev_parse. simpl. rewrite Hh.
  destruct (heads r2 !! k); [done|]. rewrite !lookup_union.
  destruct Hk as [-> | ->]; [done|]. rewrite lookup_union.
  by destruct (fetched !! k), (remote_refs r !! k).
Qed.

Lemma same_repository_sym r r2 : same_repository r r2 → same_repository r2 r.
Proof. intros (? & ? & ? & ? & ?). by split_and!. Qed.

(** A preflight that passes on one repository passes on the other,
    with the same calls and the same refs fetched. *)
Lemma preflight_facts_transfer a r r2 r1 fb tb flog :
  same_repository r r2 →
  new_Branch r2 (from_branch a) (upstream a)
  = new_Branch r (from_branch a) (upstream a) →
  new_Branch r2 (to_branch a) (upstream a)
  = new_Branch r (to_branch a) (upstream a) →
  preflight_facts bc new_Branch a r r1 fb tb flog →
  ∃ fetched : gmap string Commit,
    r1 = set_remote_refs (fetched ∪.) r ∧
    preflight_facts bc new_Branch a r2 (set_remote_refs (fetched ∪.) r2)
      fb tb flog ∧
    workflow_args a r2 fb tb = workflow_args a r fb tb.
Proof.
  intros (Hcwd & Hst & Hun & Hrm & Hh) Hnb1 Hnb2 Hfacts.
  destruct (preflight_facts_repo _ _ _ _ _ _ Hfacts)
    as (fetched & -> & Hrun & _ & _ & _).
  destruct Hfacts as (Hd & Hfork & Hb1 & Hb2 & Hf & Hbound & Hheads).
  exists fetched. split_and!; [done| |].
  - split_and!.
    + rewrite is_dirty_default in *. by rewrite <- Hst, <- Hun.
    + unfold fork_error, resolved_repo_name in *. by rewrite <- Hcwd, <- Hrm.
    + by rewrite Hnb1.
    + by rewrite Hnb2.
    + by apply Hrun.
    + done.
    + intros Ht. simpl. rewrite <- Hh. by apply Hheads.
  - unfold workflow_args, resolved_repo_name. by rewrite Hcwd.
Qed.

Lemma preflight_facts_ok a r r1 fb tb flog :
  preflight_facts bc new_Branch a r r1 fb tb flog →
  (before_dispatch bc new_Branch a r).1.1 = r1.
Proof.
  intros Hfacts. eapply preflight_state. apply preflight_ok_iff.
  by exists fb, tb, flog.
Qed.

(** The decision of a run that gets to a workflow, from the two
    commits. *)
Lemma decision_dispatched a r r1 fb tb flog cf ct :
  preflight_facts bc new_Branch a r r1 fb tb flog →
  rev_parse r1 (ref fb) = Some cf → addon a ∈ tree_trees cf →
  rev_parse r1 (ref tb) = Some ct →
  dispatch_decision (main bc new_Branch workflow_run a r).1.2
  = Some (if bool_decide (addon a ∈ tree_trees ct)
          then PortAddonPullRequest else MigrateAddon).
Proof.
  intros Hfacts Hcf Hin Hct.
  assert (Hb : before_dispatch bc new_Branch a r
    = (r1, preflight_log a tb flog ++
           [ECommit (ref fb); ENewInputStorage (Obj tb) (addon a)],
       inr (workflow_args a r fb tb))).
  { apply before_dispatch_ok_iff. by exists fb, tb, flog, cf. }
  rewrite main_before_dispatch, (bind_prepend _ _ _ _ _ _ Hb).
  rewrite (dispatch_eval _ tb ct r1) by done.
  unfold prepend. cbn [fst snd]. unfold dispatch_decision.
  rewrite runs_app, runs_below; [done|].
  pose proof (before_dispatch_below a r) as H. by rewrite Hb in H.
Qed.

(** The decision of a run with a workflow, read back. *)
Lemma decision_inv a r wf :
  dispatch_decision (main bc new_Branch workflow_run a r).1.2 = Some wf →
  ∃ r1 fb tb flog cf ct,
    preflight_facts bc new_Branch a r r1 fb tb flog ∧
    rev_parse r1 (ref fb) = Some cf ∧ addon a ∈ tree_trees cf ∧
    rev_parse r1 (ref tb) = Some ct ∧
    wf = if bool_decide (addon a ∈ tree_trees ct)
         then PortAddonPullRequest else MigrateAddon.
Proof.
  destruct (main_cases a r) as [[Hruns _]|Hr].
  { unfold dispatch_decision. by rewrite Hruns. }
  destruct Hr as (r1 & fb & tb & flog & cf & ct & Hfacts & Hcf & Hin & Hct & _).
  rewrite (decision_dispatched a r r1 fb tb flog cf ct) by done.
  intros [= <-]. by exists r1, fb, tb, flog, cf, ct.
Qed.

(** ** The claims *)


(** C3.  On a repository with uncommitted changes the run ends with
    the dirty-repository error after the dirty check alone: nothing
    is fetched. *)
Theorem dirty_aborts_before_fetch a r :
  staged r = true ∨ unstaged r = true →
  main bc new_Branch workflow_run a r
  = (r, [EIsDirty], inl (ClickException dirty_msg)) ∧
  fetches (main bc new_Branch workflow_run a r).1.2 = [].
Proof.
  intros Hd. rewrite main_dirty; [done|]. rewrite is_dirty_default.
  destruct Hd as [-> | ->]; [done|]. apply orb_true_r.
Qed.

(** C5.  [_check_branches] fails for every source without a bound
    remote; with a bound source it passes when the target has a bound
    remote or its bare name is a local head, and otherwise fails with
    a message that names the bare target name and its full ref. *)
Theorem check_branches_spec fb tb r :
  (_check_branches bc (Obj fb) (Obj tb) r).2 =
    (if negb (truthy (remote fb)) then
       inl (ClickException (no_source_branch_msg bc (ref fb)))
     else if truthy (remote tb)
             || bool_decide (is_Some (heads r !! name tb)) then inr true
     else inl (ClickException
                 (no_target_branch_msg bc (name tb) (ref tb)))) ∧
  contains (no_target_branch_msg bc (name tb) (ref tb)) (name tb) ∧
  contains (no_target_branch_msg bc (name tb) (ref tb)) (ref tb).
Proof.
  split_and!.
  - rewrite check_branches_obj.
    destruct (truthy (remote fb)); [|done]. simpl.
    by destruct (truthy (remote tb)).
  - unfold no_target_branch_msg. find_part.
  - unfold no_target_branch_msg. do 3 apply contains_append_r. find_part.
Qed.

(** C10.  The dirty guard fires exactly when tracked content is
    modified, staged or not; untracked files play no part, and
    without such a modification the run goes past the guard. *)
Theorem dirty_guard_tracked_only a r :
  (main bc new_Branch workflow_run a r
   = (r, [EIsDirty], inl (ClickException dirty_msg))
   ↔ staged r || unstaged r = true) ∧
  ((2 ≤ length (main bc new_Branch workflow_run a r).1.2)%nat
   ↔ staged r || unstaged r = false).
Proof.
  rewrite <- is_dirty_default.
  destruct (is_dirty r true true false) eqn:Hd.
  - rewrite main_dirty by done. simpl. split; [done|].
    split; [lia|done].
  - destruct (preflight_clean a r Hd) as (e & l & Hl).
    pose proof (preflight_log_prefix a r) as [l' Hpre].
    rewrite Hl in Hpre. split.
    + split; [|done]. intros H. rewrite H in Hpre. done.
    + split; [done|]. intros _. rewrite Hpre. simpl. lia.
Qed.


(** C4, amended.  The fetch step goes through the references in the
    order given and stops at the first one that cannot be fetched.
    When it returns, every reference could be fetched and the fetches
    made are those of the references bound to a remote, one each, of
    that branch from that remote, in order, unbound references being
    skipped.  When it fails, it fails at the first reference whose
    remote is not configured or does not serve the branch: the fetches
    made are those of the bound references before it, followed by the
    failing fetch itself when the remote is configured, and no
    reference after it is fetched. *)
Theorem fetch_step_fetches bs v r :
  match (_fetch_branches bc (Obj <$> bs) v r).2 with
  | inr _ =>
      Forall (λ b, fetchable (remotes r) b = true) bs ∧
      fetches (_fetch_branches bc (Obj <$> bs) v r).1.2 = bound_refs bs
  | inl e =>
      ∃ pre b post rm,
        bs = pre ++ b :: post ∧
        Forall (λ b, fetchable (remotes r) b = true) pre ∧
        remote b = Some rm ∧ rm ≠ "" ∧
        match remotes r !! rm with
        | None =>
            e = IndexError rm ∧
            fetches (_fetch_branches bc (Obj <$> bs) v r).1.2
            = bound_refs pre
        | Some x =>
            served x ≫= (.!! name b) = None ∧
            e = GitCommandError rm (name b) ∧
            fetches (_fetch_branches bc (Obj <$> bs) v r).1.2
            = bound_refs pre ++ [(rm, name b)]
        end
  end.
Proof.
  revert r. induction bs as [|b bs IH]; intros r.
  { simpl. by split. }
  rewrite fmap_cons. destruct (truthy (remote b)) eqn:Hb; cycle 1.
  { rewrite fetch_branches_unbound by done.
    assert (Hbr : ∀ l, bound_refs (b :: l) = bound_refs l).
    { intros l. unfold bound_refs. simpl. unfold truthy in Hb.
      by destruct (remote b) as [[|c s]|]. }
    specialize (IH r).
    destruct (_fetch_branches bc (Obj <$> bs) v r) as [[r2 l2] [e|[]]];
      cbn [fst snd] in *.
    - destruct IH as (pre & b' & post & rm & -> & Hpre & Hrm & Hne & H).
      exists (b :: pre), b', post, rm. split_and!; try done.
      + constructor; [by apply fetchable_unbound|done].
      + destruct (remotes r !! rm) as [x|]; by rewrite Hbr.
    - destruct IH as [Hall Hf]. split; [|by rewrite Hbr].
      constructor; [by apply fetchable_unbound|done]. }
  destruct (truthy_Some _ Hb) as (rm & Hrm & Hne).
  assert (Hbr : ∀ l, bound_refs (b :: l) = (rm, name b) :: bound_refs l).
  { intros l. unfold bound_refs. simpl. rewrite Hrm. by destruct rm. }
  rewrite (fetch_branches_bound _ _ _ _ _ Hrm Hne).
  destruct (remotes r !! rm) as [x|] eqn:Hx; cycle 1.
  { cbn [fst snd]. exists [], b, bs, rm. rewrite Hx. by split_and!. }
  cbv zeta.
  set (plog := if v then [EPrint (fetch_line bc (ref b) (url x))] else []).
  assert (Hplog : ∀ l, fetches (plog ++ l) = fetches l).
  { intros l. unfold plog. by destruct v. }
  destruct (served x ≫= (.!! name b)) as [c|] eqn:Hc; cycle 1.
  { cbn [fst snd]. exists [], b, bs, rm. rewrite Hx.
    split_and!; try done; by rewrite Hplog. }
  assert (Hfb : fetchable (remotes r) b = true).
  { rewrite (fetchable_bound _ _ _ Hrm Hne), Hx.
    apply bool_decide_eq_true_2. by rewrite Hc. }
  specialize (IH (track_ref rm x (name b) c r)).
  rewrite track_ref_remotes in IH.
  destruct (_fetch_branches bc (Obj <$> bs) v (track_ref rm x (name b) c r))
    as [[r2 l2] [e|[]]]; cbn [fst snd] in *.
  - destruct IH as (pre & b' & post & rm' & -> & Hpre & Hrm' & Hne' & H).
    exists (b :: pre), b', post, rm'. split_and!; try done.
    + by constructor.
    + rewrite Hplog, Hbr.
      change (fetches (EFetch rm (name b) :: l2))
        with ((rm, name b) :: fetches l2).
      destruct (remotes r !! rm') as [x'|].
      * destruct H as (? & ? & ->). by split_and!.
      * destruct H as (? & ->). by split_and!.
  - destruct IH as [Hall Hf]. split; [by constructor|].
    rewrite Hplog, Hbr.
    change (fetches (EFetch rm (name b) :: l2))
      with ((rm, name b) :: fetches l2).
    by rewrite Hf.
Qed.

(** C6, amended.  On a clean working tree, a non-empty [--fork] remote
    that is not configured ends the run before any fetch, with a
    message that holds the SSH and the HTTPS [git remote add] lines for
    that remote and the resolved repository name. *)
Theorem unknown_fork_aborts a r fk :
  staged r = false → unstaged r = false →
  fork a = Some fk → fk ≠ "" → remotes r !! fk = None →
  let rn := resolved_repo_name a r in
  let msg := no_remote_msg bc rn fk +:+ user_org_hint bc in
  main bc new_Branch workflow_run a r
  = (r, [EIsDirty; EInRemotes fk], inl (ClickException msg)) ∧
  contains msg ("$ git remote add " +:+ fk +:+ " " +:+
                "git@github.com:" +:+ fk +:+ "/" +:+ rn +:+ ".git") ∧
  contains msg ("$ git remote add " +:+ fk +:+ " " +:+
                "https://github.com/" +:+ fk +:+ "/" +:+ rn +:+ ".git") ∧
  fetches (main bc new_Branch workflow_run a r).1.2 = [].
Proof.
  intros Hs Hu Hfork Hne Hrm rn msg.
  assert (Hmain : main bc new_Branch workflow_run a r
    = (r, [EIsDirty; EInRemotes fk], inl (ClickException msg))).
  { rewrite main_before_dispatch. unfold before_dispatch.
    apply bind_inl, bind_inl. rewrite preflight_eval, is_dirty_default, Hs, Hu.
    simpl. unfold fork_error, fork_log. rewrite Hfork.
    destruct fk as [|c fk]; [done|].
    rewrite bool_decide_eq_false_2; [done|]. rewrite Hrm. by inversion 1. }
  split_and!; [done| | |by rewrite Hmain].
  - unfold msg, no_remote_msg. apply contains_append_l. find_part.
  - unfold msg, no_remote_msg. apply contains_append_l. find_part.
Qed.

Lemma parse_log_stages a r :
  Forall (λ e, stage e ∈ [2; 1]) (parse_log new_Branch a r).
Proof.
  assert (H2 : 2 ∈ [2; 1]) by (apply elem_of_cons; by left).
  assert (H1 : 1 ∈ [2; 1]).
  { apply elem_of_cons. right. apply elem_of_cons. by left. }
  unfold parse_log. destruct (new_Branch r (from_branch a) _).
  { by repeat constructor. }
  destruct (new_Branch r (to_branch a) _); by repeat constructor.
Qed.

Lemma Forall_stage n l :
  Forall (λ e, stage e = n) l → Forall (λ e, stage e ∈ [n]) l.
Proof.
  intros H. eapply Forall_impl; [exact H|]. intros e ->.
  apply elem_of_cons. by left.
Qed.

(** C7, amended.  In every run the steps are taken in the order of
    [steps]: the dirty check first, then the validation of the [--fork]
    remote, then the resolution of the two branches, the fetch, the
    branch existence check, the source addon check, the input storage,
    the target addon check and the dispatch.  The calls of the run are
    those of its steps, in that order, each step being taken only when
    every step before it has passed, and the calls of each step are of
    the kind of that step. *)
Theorem steps_in_order a r :
  (main bc new_Branch workflow_run a r).1.2
  = calls_of (steps bc new_Branch a r) ∧
  Forall2 (λ ns step, Forall (λ e, stage e ∈ ns) step.1)
    step_stages (steps bc new_Branch a r).
Proof.
  split.
  - unfold steps.
    destruct (parse_vars new_Branch a r) as [[fbv tbv] exc] eqn:Hpv.
    cbv zeta. cbn [calls_of].
    destruct (is_dirty r true true false) eqn:Hd.
    { by rewrite main_dirty. }
    cbn [negb].
    pose proof (preflight_eval a r) as Hpre. rewrite Hd in Hpre.
    destruct (fork_error bc a r) as [msg|] eqn:Hfork.
    { rewrite bool_decide_eq_false_2 by done.
      rewrite (main_stops a r r (EIsDirty :: fork_log a)
                 (ClickException msg)).
      - cbn [fst snd]. by rewrite app_nil_r.
      - unfold before_dispatch. by apply bind_inl. }
    rewrite (bool_decide_eq_true_2 _ (eq_refl None)).
    destruct (handler_error bc new_Branch a r) as [msg|] eqn:Hh.
    { rewrite bool_decide_eq_false_2 by done.
      rewrite (main_stops a r r
                 (EIsDirty :: fork_log a ++ parse_log new_Branch a r)
                 (ClickException msg)).
      - cbn [fst snd]. by rewrite app_nil_r.
      - unfold before_dispatch. by apply bind_inl. }
    rewrite (bool_decide_eq_true_2 _ (eq_refl None)).
    rewrite Hpv in Hpre.
    assert (Hnorm : ∀ l : list Event,
      [EIsDirty] ++ fork_log a ++ parse_log new_Branch a r ++ l
      = (EIsDirty :: fork_log a ++ parse_log new_Branch a r) ++ l).
    { intros l. cbn [app]. by rewrite <- app_assoc. }
    rewrite Hnorm. clear Hnorm.
    set (L := EIsDirty :: fork_log a ++ parse_log new_Branch a r) in *.
    destruct (_fetch_branches bc [fbv; tbv] (verbose a) r)
      as [[r1 fl] [e|[]]] eqn:Hf; cbn [fst snd returned].
    { rewrite (bind_inl _ _ _ _ _ _ Hf) in Hpre.
      rewrite (main_stops a r r1 (L ++ fl) e).
      - cbn [fst snd]. by rewrite app_nil_r.
      - unfold before_dispatch. by apply bind_inl. }
    rewrite (bind_prepend _ _ _ _ _ _ Hf) in Hpre.
    pose proof (check_branches_state fbv tbv r1) as [Hcs _].
    destruct (_check_branches bc fbv tbv r1) as [[r1c cl] [e|ok]] eqn:Hc;
      cbn [fst snd returned] in *; subst r1c.
    { rewrite (bind_inl _ _ _ _ _ _ Hc) in Hpre.
      rewrite (main_stops a r r1 (L ++ fl ++ cl) e).
      - cbn [fst snd]. by rewrite app_nil_r.
      - unfold before_dispatch. by apply bind_inl. }
    rewrite (bind_prepend _ _ _ _ _ _ Hc) in Hpre.
    unfold ret, prepend in Hpre. cbn [fst snd] in Hpre.
    rewrite app_nil_r in Hpre.
    pose proof (eq_refl (before_dispatch bc new_Branch a r)) as Hbd.
    unfold before_dispatch in Hbd at 2.
    rewrite (bind_prepend _ _ _ _ _ _ Hpre) in Hbd. cbv beta iota in Hbd.
    pose proof (check_addon_exists_state (addon a) fbv true r1) as [Hss _].
    destruct (_check_addon_exists bc (addon a) fbv true r1)
      as [[r1s sl] [e|oks]] eqn:Hs; cbn [fst snd returned] in *; subst r1s.
    { rewrite (bind_inl _ _ _ _ _ _ Hs) in Hbd.
      unfold prepend in Hbd. cbn [fst snd] in Hbd.
      rewrite (main_stops _ _ _ _ _ Hbd). cbn [fst snd].
      by rewrite app_nil_r, <- !app_assoc. }
    rewrite (bind_prepend _ _ _ _ _ _ Hs) in Hbd.
    unfold misc_InputStorage, bind, emit, ret, prepend in Hbd.
    cbn [fst snd app] in Hbd.
    rewrite main_before_dispatch, (bind_prepend _ _ _ _ _ _ Hbd).
    unfold dispatch. cbn [wa_addon wa_to_branch].
    pose proof (check_addon_exists_state (addon a) tbv false r1) as [Hts _].
    destruct (_check_addon_exists bc (addon a) tbv false r1)
      as [[r1t tl] [e|present]] eqn:Ht; cbn [fst snd returned] in *;
      subst r1t.
    { rewrite (bind_inl _ _ _ _ _ _ Ht). unfold prepend. cbn [fst snd].
      by rewrite app_nil_r, <- !app_assoc. }
    rewrite (bind_prepend _ _ _ _ _ _ Ht). unfold prepend. cbn [fst snd].
    destruct present; rewrite run_log; by rewrite <- !app_assoc.
  - unfold steps, step_stages.
    destruct (parse_vars new_Branch a r) as [[fbv tbv] exc]. cbv zeta.
    constructor. { by apply Forall_stage; repeat constructor. }
    constructor. { apply Forall_stage, fork_log_stage. }
    constructor. { apply parse_log_stages. }
    constructor. { apply Forall_stage, fetch_log_stage. }
    constructor. { apply Forall_stage, check_branches_state. }
    constructor. { apply Forall_stage, check_addon_exists_state. }
    constructor. { by apply Forall_stage; repeat constructor. }
    constructor. { apply Forall_stage, check_addon_exists_state. }
    constructor. { by apply Forall_stage; repeat constructor. }
    constructor.
Qed.

(** C8.  Two runs of one invocation make the same dispatch decision
    when the second starts on the repository of the first, untracked
    files apart, with the same remotes serving the same branches and
    with every remote-tracking ref where it stood before the first run
    or where the fetch of the first run has left it. *)
Theorem dispatch_decision_deterministic a r r2 :
  same_repository r r2 →
  (∀ k, remote_refs r2 !! k = remote_refs r !! k ∨
        remote_refs r2 !! k
        = remote_refs (before_dispatch bc new_Branch a r).1.1 !! k) →
  new_Branch r2 (from_branch a) (upstream a)
  = new_Branch r (from_branch a) (upstream a) →
  new_Branch r2 (to_branch a) (upstream a)
  = new_Branch r (to_branch a) (upstream a) →
  dispatch_decision (main bc new_Branch workflow_run a r2).1.2
  = dispatch_decision (main bc new_Branch workflow_run a r).1.2.
Proof.
  intros Hsame Hrefs Hnb1 Hnb2.
  pose proof Hsame as (_ & _ & _ & _ & Hh).
  assert (Hto : ∀ wf,
    dispatch_decision (main bc new_Branch workflow_run a r).1.2 = Some wf →
    dispatch_decision (main bc new_Branch workflow_run a r2).1.2 = Some wf).
  { intros wf (r1 & fb & tb & flog & cf & ct & Hfacts & Hcf & Hin & Hct
               & ->)%decision_inv.
    destruct (preflight_facts_transfer _ _ _ _ _ _ _ Hsame Hnb1 Hnb2 Hfacts)
      as (fetched & Hr1 & Hfacts2 & _).
    pose proof (preflight_facts_ok _ _ _ _ _ _ Hfacts) as Hbd.
    assert (Hrev : ∀ k, rev_parse (set_remote_refs (fetched ∪.) r2) k
                        = rev_parse r1 k).
    { intros k. rewrite Hr1. apply rev_parse_same_refs; [done|].
      specialize (Hrefs k). rewrite Hbd, Hr1 in Hrefs. exact Hrefs. }
    apply (decision_dispatched a r2 (set_remote_refs (fetched ∪.) r2)
             fb tb flog cf ct);
      by rewrite ?Hrev. }
  assert (Hfrom : ∀ wf,
    dispatch_decision (main bc new_Branch workflow_run a r2).1.2 = Some wf →
    dispatch_decision (main bc new_Branch workflow_run a r).1.2 = Some wf).
  { intros wf (r1' & fb & tb & flog & cf & ct & Hfacts2 & Hcf & Hin & Hct
               & ->)%decision_inv.
    destruct (preflight_facts_transfer a r2 r _ _ _ _
                (same_repository_sym _ _ Hsame) (eq_sym Hnb1) (eq_sym Hnb2)
                Hfacts2)
      as (fetched & Hr1' & Hfacts & _).
    pose proof (preflight_facts_ok _ _ _ _ _ _ Hfacts) as Hbd.
    assert (Hrev : ∀ k, rev_parse r1' k
                        = rev_parse (set_remote_refs (fetched ∪.) r) k).
    { intros k. rewrite Hr1'. apply rev_parse_same_refs; [done|].
      specialize (Hrefs k). rewrite Hbd in Hrefs. exact Hrefs. }
    apply (decision_dispatched a r (set_remote_refs (fetched ∪.) r)
             fb tb flog cf ct);
      by rewrite <- ?Hrev. }
  destruct (dispatch_decision (main bc new_Branch workflow_run a r).1.2)
    as [wf|] eqn:Hd.
  { by apply Hto. }
  destruct (dispatch_decision (main bc new_Branch workflow_run a r2).1.2)
    as [wf|] eqn:Hd2; [|done].
  by specialize (Hfrom _ eq_refl).
Qed.

(** ** Further properties of the helpers and of [main] *)

(** *** [_check_remote] *)

(** X1.  [_check_remote] asks once whether the remote is configured and
    leaves the repository alone.  For a known remote it returns [None]
    in both modes; for an unknown one the message it returns with
    [raise_exc=False] is the one it raises with [raise_exc=True]: it is
    not empty, names the remote and holds the SSH and the HTTPS
    [git remote add] lines. *)
Theorem check_remote_modes rn rm r :
  _check_remote bc rn rm false r
  = (r, [EInRemotes rm],
     inr (if bool_decide (is_Some (remotes r !! rm)) then None
          else Some (no_remote_msg bc rn rm))) ∧
  _check_remote bc rn rm true r
  = (r, [EInRemotes rm],
     if bool_decide (is_Some (remotes r !! rm)) then inr None
     else inl (ClickException (no_remote_msg bc rn rm))) ∧
  truthy (Some (no_remote_msg bc rn rm)) = true ∧
  contains (no_remote_msg bc rn rm) rm ∧
  contains (no_remote_msg bc rn rm) (remote_add_ssh rm rn) ∧
  contains (no_remote_msg bc rn rm) (remote_add_https rm rn).
Proof.
  split_and!.
  - rewrite check_remote_eq. by destruct (bool_decide _).
  - apply check_remote_eq.
  - by destruct (no_remote_msg_cons rn rm) as (c & s & ->).
  - unfold no_remote_msg. find_part.
  - unfold no_remote_msg. find_part.
  - unfold no_remote_msg. find_part.
Qed.

(** *** [_fetch_branches] *)

Lemma only_tracking_refs_moved_union (fetched : gmap string Commit) r :
  only_tracking_refs_moved r (set_remote_refs (fetched ∪.) r).
Proof.
  split_and!; try done. intros k Hk. simpl.
  apply lookup_union_is_Some. by right.
Qed.

(** X4.  The fetch step is idempotent: run again on the repository it
    left, it makes the same calls, ends the same way and leaves that
    repository as it is. *)
Theorem fetch_idempotent bs v r :
  _fetch_branches bc bs v (_fetch_branches bc bs v r).1.1
  = _fetch_branches bc bs v r.
Proof.
  destruct (fetch_branches_union bs v (remotes r))
    as (fetched & log & res & Hrun & _).
  rewrite (Hrun r eq_refl). cbn [fst snd].
  rewrite (Hrun (set_remote_refs _ r)) by done.
  rewrite set_remote_refs_compose. f_equal. f_equal.
  apply set_remote_refs_ext. intros m. simpl.
  by rewrite (assoc_L (∪)), (idemp_L (∪)).
Qed.

Lemma fetch_branches_verbose bs r :
  (_fetch_branches bc bs true r).1.1 = (_fetch_branches bc bs false r).1.1 ∧
  (_fetch_branches bc bs true r).2 = (_fetch_branches bc bs false r).2 ∧
  without_prints (_fetch_branches bc bs true r).1.2
  = (_fetch_branches bc bs false r).1.2.
Proof.
  revert r. induction bs as [|b bs IH]; intros r; [done|].
  destruct b as [s|b]; [done|].
  destruct (truthy (remote b)) eqn:Hb; cycle 1.
  { rewrite !fetch_branches_unbound by done. apply IH. }
  destruct (truthy_Some _ Hb) as (rm & Hrm & Hne).
  rewrite !(fetch_branches_bound _ _ _ _ _ Hrm Hne).
  destruct (remotes r !! rm) as [x|]; [|done]. cbv zeta.
  destruct (served x ≫= _) as [c|]; [|done].
  specialize (IH (track_ref rm x (name b) c r)).
  destruct (_fetch_branches bc bs true _) as [[r1 l1] res1].
  destruct (_fetch_branches bc bs false _) as [[r0 l0] res0].
  cbn [fst snd] in *. destruct IH as (-> & -> & <-). done.
Qed.

(** X5.  [verbose] only adds printed lines: with or without it the step
    makes the same fetches, ends the same way and leaves the same
    repository, and without it nothing is printed. *)
Theorem fetch_verbose_only_prints bs r :
  (_fetch_branches bc bs true r).1.1 = (_fetch_branches bc bs false r).1.1 ∧
  (_fetch_branches bc bs true r).2 = (_fetch_branches bc bs false r).2 ∧
  without_prints (_fetch_branches bc bs true r).1.2
  = (_fetch_branches bc bs false r).1.2.
Proof. apply fetch_branches_verbose. Qed.

(** X6.  A fetch step returns only when it was given branch objects
    and every one of them that is bound to a remote names a configured
    remote whose server has the branch; the step leaves the configured
    remotes as they are. *)
Theorem fetch_returns_only_if bs v r r' log :
  _fetch_branches bc bs v r = (r', log, inr ()) →
  (∀ x, x ∈ bs → ∃ b, x = Obj b ∧ fetchable (remotes r) b = true) ∧
  remotes r' = remotes r.
Proof.
  intros Hf.
  destruct (fetch_branches_union bs v (remotes r))
    as (fetched & log' & res & Hrun & Hok & Hobj & _).
  rewrite (Hrun r eq_refl) in Hf. injection Hf as <- -> ->.
  split; [|done]. intros x Hx.
  destruct (Hobj eq_refl x Hx) as [b ->]. exists b. split; [done|].
  by apply Hok.
Qed.

(** X7.  Fetching a list is fetching its first part and then, from the
    repository that leaves, the rest: what was fetched before a later
    failure stays fetched. *)
Theorem fetch_app bs1 bs2 v r :
  _fetch_branches bc (bs1 ++ bs2) v r
  = bind (_fetch_branches bc bs1 v) (λ _, _fetch_branches bc bs2 v) r.
Proof.
  revert r. induction bs1 as [|b bs1 IH]; intros r.
  { simpl. unfold bind, ret.
    by destruct (_fetch_branches bc bs2 v r) as [[r2 l2] res2]. }
  destruct b as [s|b]; [done|].
  destruct (truthy (remote b)) eqn:Hb.
  - destruct (truthy_Some _ Hb) as (rm & Hrm & Hne).
    change ((Obj b :: bs1) ++ bs2) with (Obj b :: (bs1 ++ bs2)).
    unfold bind at 1.
    rewrite !(fetch_branches_bound _ _ _ _ _ Hrm Hne).
    destruct (remotes r !! rm) as [x|]; [|done]. cbv zeta.
    destruct (served x ≫= _) as [c|]; [|done].
    rewrite IH. unfold bind.
    destruct (_fetch_branches bc bs1 v _) as [[r1 l1] [e|[]]]; [done|].
    destruct (_fetch_branches bc bs2 v r1) as [[r2 l2] res2].
    by rewrite <- app_assoc.
  - change ((Obj b :: bs1) ++ bs2) with (Obj b :: (bs1 ++ bs2)).
    unfold bind at 1. rewrite !fetch_branches_unbound by done.
    by rewrite IH.
Qed.

(** *** [_check_branches] and [_check_addon_exists] *)

(** X8.  [_check_branches] never returns [False]: it returns [True] or
    raises.  It leaves the repository alone and asks at most once, for
    an unbound target only, whether the name is a local head.  Given a
    raw string for the source it fails on the missing attribute. *)
Theorem check_branches_never_false fbv tbv r :
  (_check_branches bc fbv tbv r).1.1 = r ∧
  ((_check_branches bc fbv tbv r).2 = inr true ∨
   ∃ e, (_check_branches bc fbv tbv r).2 = inl e) ∧
  ((_check_branches bc fbv tbv r).1.2 = [] ∨
   ∃ tb, tbv = Obj tb ∧ truthy (remote tb) = false ∧
         (_check_branches bc fbv tbv r).1.2 = [EInHeads (name tb)]) ∧
  (∀ s, fbv = Str s →
        (_check_branches bc fbv tbv r).2 = inl (AttributeError "remote")).
Proof.
  destruct fbv as [s|fb].
  { split_and!; [done|right; by eexists|by left|done]. }
  destruct tbv as [s|tb].
  { unfold _check_branches, bind, ret. simpl.
    destruct (truthy (remote fb)); simpl;
      (split_and!; [done|right; by eexists|by left|done]). }
  rewrite check_branches_obj.
  destruct (truthy (remote fb)); simpl.
  2: { split_and!; [done|right; by eexists|by left|done]. }
  destruct (truthy (remote tb)) eqn:Ht.
  { split_and!; [done|by left|by left|done]. }
  split_and!; [done| | |done].
  - destruct (bool_decide _); [by left|right; by eexists].
  - right. by exists tb.
Qed.

(** X9.  The two modes of [_check_addon_exists] look up the same commit
    and agree on when the addon is there.  With [raise_exc=True] the
    function never returns [False]; with [raise_exc=False] it still
    raises when the ref does not resolve, and only then.  Neither mode
    changes the repository. *)
Theorem check_addon_modes ad b r :
  (_check_addon_exists bc ad (Obj b) true r).1 = (r, [ECommit (ref b)]) ∧
  (_check_addon_exists bc ad (Obj b) false r).1 = (r, [ECommit (ref b)]) ∧
  ((_check_addon_exists bc ad (Obj b) true r).2 = inr true
   ↔ (_check_addon_exists bc ad (Obj b) false r).2 = inr true) ∧
  (_check_addon_exists bc ad (Obj b) true r).2 ≠ inr false ∧
  (∀ e, (_check_addon_exists bc ad (Obj b) false r).2 = inl e
        ↔ e = BadName (ref b) ∧ rev_parse r (ref b) = None).
Proof.
  rewrite !check_addon_exists_obj. cbn [fst snd].
  destruct (rev_parse r (ref b)) as [c|].
  - destruct (bool_decide (ad ∈ tree_trees c)); split_and!; try done.
    + intros e. split; [done|]. by intros [_ ?].
    + intros e. split; [done|]. by intros [_ ?].
  - split_and!; try done. intros e. split.
    + by intros [= <-].
    + by intros [-> _].
Qed.

(** *** [main] as a whole *)

Lemma fetches_below l : Forall (λ e, (stage e ≤ 2)%nat) l → fetches l = [].
Proof.
  induction 1 as [|e l He _ IH]; [done|].
  destruct e; simpl in He; try lia; exact IH.
Qed.

Lemma parse_log_stage a r :
  Forall (λ e, (stage e ≤ 2)%nat) (parse_log new_Branch a r).
Proof.
  unfold parse_log. destruct (new_Branch r (from_branch a) _).
  { repeat constructor; simpl; lia. }
  destruct (new_Branch r (to_branch a) _); repeat constructor; simpl; lia.
Qed.

Lemma before_fetch_stage a r :
  Forall (λ e, (stage e ≤ 2)%nat)
    (EIsDirty :: fork_log a ++ parse_log new_Branch a r).
Proof.
  constructor; [simpl; lia|]. apply Forall_app. split.
  - eapply Forall_impl; [apply fork_log_stage|]. simpl. lia.
  - apply parse_log_stage.
Qed.

Lemma runs_below_2 l : Forall (λ e, (stage e ≤ 2)%nat) l → runs l = [].
Proof.
  intros H. apply runs_below. eapply Forall_impl; [done|]. simpl. lia.
Qed.

(** X2.  When the construction of a branch raises a [ValueError] that
    names a remote which is not configured, the run ends there, before
    any fetch and without a workflow, with the message of
    [_check_remote] for that remote (which has no [--user-org] hint). *)
Theorem value_error_unknown_remote a r rm :
  staged r = false → unstaged r = false → fork_error bc a r = None →
  (parse_vars new_Branch a r).2 = Some rm →
  remotes r !! rm = None →
  main bc new_Branch workflow_run a r
  = (r, EIsDirty :: fork_log a ++ parse_log new_Branch a r,
     inl (ClickException (no_remote_msg bc (resolved_repo_name a r) rm))) ∧
  fetches (main bc new_Branch workflow_run a r).1.2 = [] ∧
  runs (main bc new_Branch workflow_run a r).1.2 = [].
Proof.
  intros Hs Hu Hfork Hpv Hrm.
  assert (Hmain : main bc new_Branch workflow_run a r
    = (r, EIsDirty :: fork_log a ++ parse_log new_Branch a r,
       inl (ClickException (no_remote_msg bc (resolved_repo_name a r) rm)))).
  { apply main_stops. unfold before_dispatch. apply bind_inl.
    rewrite preflight_eval, is_dirty_default, Hs, Hu. simpl.
    rewrite Hfork. unfold handler_error. rewrite Hpv.
    rewrite bool_decide_eq_false_2; [done|]. rewrite Hrm. by inversion 1. }
  rewrite Hmain. cbn [fst snd]. split_and!; [done| |].
  - apply fetches_below, before_fetch_stage.
  - apply runs_below_2, before_fetch_stage.
Qed.

(** X10.  No run, however it ends, runs more than one workflow. *)
Theorem at_most_one_workflow a r :
  (length (runs (main bc new_Branch workflow_run a r).1.2) ≤ 1)%nat.
Proof.
  destruct (main_cases a r) as [[-> _]|Hr]; [simpl; lia|].
  destruct Hr as (r1 & fb & tb & flog & cf & ct & Hfacts & _ & _ & _ & Hlog).
  cbv zeta in Hlog. rewrite Hlog.
  destruct (preflight_facts_repo _ _ _ _ _ _ Hfacts) as (_ & _ & _ & _ & _ & Hflog).
  by rewrite runs_full_log.
Qed.

(** X11.  [main] returns without an exception only after it has run a
    workflow: every run that ends well has run exactly one. *)
Theorem returns_only_through_workflow a r :
  (main bc new_Branch workflow_run a r).2 = inr () →
  ∃ wf wa, runs (main bc new_Branch workflow_run a r).1.2 = [(wf, wa)].
Proof.
  intros Hret.
  destruct (main_cases a r) as [[_ [e He]]|Hr].
  { by rewrite He in Hret. }
  destruct Hr as (r1 & fb & tb & flog & cf & ct & Hfacts & _ & _ & _ & Hlog).
  cbv zeta in Hlog. rewrite Hlog.
  destruct (preflight_facts_repo _ _ _ _ _ _ Hfacts) as (_ & _ & _ & _ & _ & Hflog).
  eexists _, _. by apply runs_full_log.
Qed.

(** X12.  A workflow is only ever run on a clean working tree, with two
    resolved branch objects of which the source is bound to a remote,
    and for an addon that is a directory of the source branch's root
    tree in the repository it is handed, which is the initial one but
    for remote-tracking refs. *)
Theorem workflow_preconditions a r wf wa :
  (wf, wa) ∈ runs (main bc new_Branch workflow_run a r).1.2 →
  staged r = false ∧ unstaged r = false ∧
  ∃ fb tb r1 cf,
    new_Branch r (from_branch a) (upstream a) = inr fb ∧
    new_Branch r (to_branch a) (upstream a) = inr tb ∧
    wa_from_branch wa = Obj fb ∧ wa_to_branch wa = Obj tb ∧
    truthy (remote fb) = true ∧
    only_tracking_refs_moved r r1 ∧
    rev_parse r1 (ref fb) = Some cf ∧ addon a ∈ tree_trees cf ∧
    (main bc new_Branch workflow_run a r).1.1 = (workflow_run wf wa r1).1.
Proof.
  intros Hin.
  destruct (main_cases a r) as [[Hruns _]|Hr].
  { rewrite Hruns in Hin. by apply elem_of_nil in Hin. }
  destruct Hr as (r1 & fb & tb & flog & cf & ct & Hfacts & Hcf & Hincf & Hct & Hlog).
  cbv zeta in Hlog. rewrite Hlog in Hin.
  destruct (preflight_facts_repo _ _ _ _ _ _ Hfacts)
    as (fetched & Hr1 & _ & _ & _ & Hflog).
  rewrite runs_full_log in Hin by done.
  apply list_elem_of_singleton in Hin. injection Hin as -> ->.
  pose proof Hfacts as (Hd & _ & Hb1 & Hb2 & _ & Hbound & _).
  rewrite is_dirty_default in Hd. apply orb_false_iff in Hd as [Hs Hu].
  split_and!; try done. exists fb, tb, r1, cf. split_and!; try done.
  - rewrite Hr1. apply only_tracking_refs_moved_union.
  - by rewrite (main_dispatched a r r1 fb tb flog cf ct).
Qed.

(** X13.  The workflow that is run gets the command line as given, with
    the repository name defaulting to the name of the current directory
    and the user organization to the [--fork] remote when they are
    missing or empty, and an input storage built for its target branch
    and the addon. *)
Theorem workflow_argument_defaults a r wf wa :
  (wf, wa) ∈ runs (main bc new_Branch workflow_run a r).1.2 →
  wa_upstream_org wa = upstream_org a ∧
  wa_repo_name wa
  = match repo_name a with
    | None => cwd_basename r
    | Some "" => cwd_basename r
    | Some nm => nm
    end ∧
  wa_fork wa = fork a ∧
  wa_user_org wa
  = match user_org a with
    | None => fork a
    | Some "" => fork a
    | Some org => Some org
    end ∧
  wa_addon wa = addon a ∧
  wa_storage wa = mkInputStorage (wa_to_branch wa) (addon a) ∧
  wa_verbose wa = verbose a ∧
  wa_non_interactive wa = non_interactive a.
Proof.
  intros Hin.
  destruct (main_cases a r) as [[Hruns _]|Hr].
  { rewrite Hruns in Hin. by apply elem_of_nil in Hin. }
  destruct Hr as (r1 & fb & tb & flog & cf & ct & Hfacts & _ & _ & _ & Hlog).
  cbv zeta in Hlog. rewrite Hlog in Hin.
  destruct (preflight_facts_repo _ _ _ _ _ _ Hfacts) as (_ & _ & _ & _ & _ & Hflog).
  rewrite runs_full_log in Hin by done.
  apply list_elem_of_singleton in Hin. injection Hin as -> ->.
  split_and!; try done.
  unfold workflow_args, resolved_user_org, truthy. simpl.
  by destruct (user_org a) as [[|c s]|].
Qed.

Lemma same_target_sym a a2 : same_target a a2 → same_target a2 a.
Proof. intros (? & ? & ? & ? & ?). by split_and!. Qed.

Lemma preflight_facts_same_target a a2 r r1 fb tb flog :
  same_target a a2 →
  preflight_facts bc new_Branch a r r1 fb tb flog →
  ∃ flog2, preflight_facts bc new_Branch a2 r r1 fb tb flog2.
Proof.
  intros (Hf & Ht & Had & Hup & Hfk) (Hd & Hfork & Hb1 & Hb2 & Hfe & Hfb & Hh).
  assert (Hv : ∃ flog2, _fetch_branches bc [Obj fb; Obj tb] (verbose a2) r
                        = (r1, flog2, inr ())).
  { destruct (fetch_branches_verbose [Obj fb; Obj tb] r) as (Hst & Hres & _).
    destruct (verbose a), (verbose a2); try by eexists.
    - rewrite Hfe in Hst, Hres.
      destruct (_fetch_branches bc _ false r) as [[r0 l0] res0].
      simpl in *. subst. by eexists.
    - rewrite Hfe in Hst, Hres.
      destruct (_fetch_branches bc _ true r) as [[r0 l0] res0].
      simpl in *. subst. by eexists. }
  destruct Hv as [flog2 Hv]. exists flog2. split_and!; try done.
  - unfold fork_error in *. rewrite Hfk.
    destruct (fork a) as [[|c s]|]; try done.
    by destruct (bool_decide _).
  - by rewrite Hf, Hup.
  - by rewrite Ht, Hup.
Qed.

Lemma decision_same_target a a2 r wf :
  same_target a a2 →
  dispatch_decision (main bc new_Branch workflow_run a r).1.2 = Some wf →
  dispatch_decision (main bc new_Branch workflow_run a2 r).1.2 = Some wf.
Proof.
  intros Hsame.
  destruct (main_cases a r) as [[Hruns _]|Hr].
  { unfold dispatch_decision. by rewrite Hruns. }
  destruct Hr as (r1 & fb & tb & flog & cf & ct & Hfacts & Hcf & Hin
                  & Hct & Hlog).
  cbv zeta in Hlog. rewrite Hlog.
  destruct (preflight_facts_repo _ _ _ _ _ _ Hfacts)
    as (_ & _ & _ & _ & _ & Hflog).
  unfold dispatch_decision at 1. rewrite runs_full_log by done.
  simpl. intros [= <-].
  destruct (preflight_facts_same_target _ _ _ _ _ _ _ Hsame Hfacts)
    as [flog2 Hfacts2].
  destruct (preflight_facts_repo _ _ _ _ _ _ Hfacts2)
    as (_ & _ & _ & _ & _ & Hflog2).
  destruct Hsame as (_ & _ & Had & _).
  rewrite (main_dispatched a2 r r1 fb tb flog2 cf ct) by (by rewrite ?Had).
  cbn [fst snd]. unfold dispatch_decision. rewrite runs_full_log by done.
  simpl. by rewrite Had.
Qed.

(** X15.  The dispatch decision depends on the command line only
    through the two branch names, the addon, the default remote and the
    push remote: [--upstream-org], [--repo-name], [--user-org],
    [--verbose] and [--non-interactive] do not change it. *)
Theorem decision_ignores_other_options a a2 r :
  same_target a a2 →
  dispatch_decision (main bc new_Branch workflow_run a2 r).1.2
  = dispatch_decision (main bc new_Branch workflow_run a r).1.2.
Proof.
  intros Hsame.
  destruct (dispatch_decision (main bc new_Branch workflow_run a r).1.2)
    as [wf|] eqn:Hd.
  { by apply (decision_same_target a a2). }
  destruct (dispatch_decision (main bc new_Branch workflow_run a2 r).1.2)
    as [wf|] eqn:Hd2; [|done].
  apply (decision_same_target a2 a) in Hd2; [congruence|].
  by apply same_target_sym.
Qed.

(** The run of a clean repository whose branches both resolve, from the
    fetch on. *)
Lemma main_resolved a r fb tb :
  staged r = false → unstaged r = false → fork_error bc a r = None →
  new_Branch r (from_branch a) (upstream a) = inr fb →
  new_Branch r (to_branch a) (upstream a) = inr tb →
  preflight bc new_Branch a r
  = prepend (EIsDirty :: fork_log a ++
             [ENewBranch (from_branch a) (upstream a);
              ENewBranch (to_branch a) (upstream a)])
      (bind (_fetch_branches bc [Obj fb; Obj tb] (verbose a)) (λ _,
       bind (_check_branches bc (Obj fb) (Obj tb)) (λ _,
       ret (resolved_repo_name a r, resolved_user_org a,
            Obj fb, Obj tb))) r).
Proof.
  intros Hs Hu Hfork Hfb Htb.
  rewrite preflight_eval, is_dirty_default, Hs, Hu. simpl.
  rewrite Hfork. unfold handler_error, parse_vars, parse_log.
  by rewrite Hfb, Htb.
Qed.

(** X16.  A fetch that fails ends the run with its error, after the
    fetches made so far: no local head is looked up, no commit is read
    and no workflow is run. *)
Theorem fetch_failure_aborts a r fb tb r1 flog e :
  staged r = false → unstaged r = false → fork_error bc a r = None →
  new_Branch r (from_branch a) (upstream a) = inr fb →
  new_Branch r (to_branch a) (upstream a) = inr tb →
  _fetch_branches bc [Obj fb; Obj tb] (verbose a) r = (r1, flog, inl e) →
  main bc new_Branch workflow_run a r
  = (r1, EIsDirty :: fork_log a ++
         [ENewBranch (from_branch a) (upstream a);
          ENewBranch (to_branch a) (upstream a)] ++ flog,
     inl e) ∧
  Forall (λ ev, (stage ev ≤ 3)%nat)
    (main bc new_Branch workflow_run a r).1.2.
Proof.
  intros Hs Hu Hfork Hfb Htb Hf.
  assert (Hmain : main bc new_Branch workflow_run a r
    = (r1, EIsDirty :: fork_log a ++
           [ENewBranch (from_branch a) (upstream a);
            ENewBranch (to_branch a) (upstream a)] ++ flog,
       inl e)).
  { apply main_stops. unfold before_dispatch. apply bind_inl.
    rewrite (main_resolved a r fb tb) by done.
    rewrite (bind_inl _ _ _ _ _ _ Hf). unfold prepend. cbn [fst snd].
    by rewrite <- app_comm_cons, <- app_assoc. }
  split; [done|]. rewrite Hmain. cbn [fst snd].
  destruct (fetch_branches_union [Obj fb; Obj tb] (verbose a) (remotes r))
    as (fetched & log & res & Hrun & _ & _ & Hlog).
  rewrite (Hrun r eq_refl) in Hf. injection Hf as _ -> _.
  constructor; [simpl; lia|]. rewrite !Forall_app. split_and!.
  - eapply Forall_impl; [apply fork_log_stage|]. simpl. lia.
  - repeat constructor; simpl; lia.
  - eapply Forall_impl; [apply Hlog|]. simpl. lia.
Qed.

(** X17.  A source branch that is not bound to a remote is refused even
    when it is a local head, which is enough for a target: once the
    fetch has returned, the run ends with the error that names the
    source, and reads no commit. *)
Theorem local_source_refused a r fb tb r1 flog :
  staged r = false → unstaged r = false → fork_error bc a r = None →
  new_Branch r (from_branch a) (upstream a) = inr fb →
  new_Branch r (to_branch a) (upstream a) = inr tb →
  truthy (remote fb) = false →
  _fetch_branches bc [Obj fb; Obj tb] (verbose a) r = (r1, flog, inr ()) →
  main bc new_Branch workflow_run a r
  = (r1, EIsDirty :: fork_log a ++
         [ENewBranch (from_branch a) (upstream a);
          ENewBranch (to_branch a) (upstream a)] ++ flog,
     inl (ClickException (no_source_branch_msg bc (name fb)))) ∧
  contains (no_source_branch_msg bc (name fb)) (name fb).
Proof.
  intros Hs Hu Hfork Hfb Htb Hunbound Hf. split.
  - apply main_stops. unfold before_dispatch. apply bind_inl.
    rewrite (main_resolved a r fb tb) by done.
    rewrite (bind_prepend _ _ _ _ _ _ Hf).
    unfold bind at 1. rewrite check_branches_obj, Hunbound. simpl.
    rewrite (ref_unbound _ Hunbound). unfold prepend. cbn [fst snd].
    rewrite app_nil_r. by rewrite <- app_comm_cons, <- app_assoc.
  - unfold no_source_branch_msg. find_part.
Qed.

Lemma fetch_branches_obj_error bs v r attr :
  (_fetch_branches bc (Obj <$> bs) v r).2 ≠ inl (AttributeError attr).
Proof.
  revert r. induction bs as [|b bs IH]; intros r; [done|].
  rewrite fmap_cons. destruct (truthy (remote b)) eqn:Hb; cycle 1.
  { rewrite fetch_branches_unbound by done. apply IH. }
  destruct (truthy_Some _ Hb) as (rm & Hrm & Hne).
  rewrite (fetch_branches_bound _ _ _ _ _ Hrm Hne).
  destruct (remotes r !! rm) as [x|]; [|done]. cbv zeta.
  destruct (served x ≫= _) as [c|]; [|done].
  specialize (IH (track_ref rm x (name b) c r)).
  by destruct (_fetch_branches bc (Obj <$> bs) v _) as [[r2 l2] res].
Qed.

(** X18.  When the constructor of [misc.Branch] raises its [ValueError]
    only with a remote that is not configured, the handler ends every
    run in which it is raised: no raw string gets to the fetch, and
    [main] itself never fails on a missing attribute (an
    [AttributeError] can only come out of a workflow). *)
Theorem no_raw_string_past_handler a r :
  (∀ nm rm, new_Branch r nm (upstream a) = inl rm → remotes r !! rm = None) →
  (∀ attr,
     (before_dispatch bc new_Branch a r).2 ≠ inl (AttributeError attr)) ∧
  (∀ attr,
     (main bc new_Branch workflow_run a r).2 = inl (AttributeError attr) →
     runs (main bc new_Branch workflow_run a r).1.2 ≠ []).
Proof.
  intros Hc.
  assert (Hbd : ∀ attr,
    (before_dispatch bc new_Branch a r).2 ≠ inl (AttributeError attr)).
  { intros attr. unfold before_dispatch.
    destruct (preflight bc new_Branch a r) as [[r1 l1] [e|x]] eqn:Hp.
    - rewrite (bind_inl _ _ _ _ _ _ Hp). cbn [snd]. intros [= ->].
      rewrite preflight_eval in Hp.
      destruct (is_dirty r true true false); [done|].
      destruct (fork_error bc a r); [done|].
      destruct (handler_error bc new_Branch a r) eqn:Hh; [done|].
      unfold handler_error, parse_vars in *.
      destruct (new_Branch r (from_branch a) (upstream a)) as [rm|fb] eqn:H1.
      { cbn [snd] in Hh. rewrite bool_decide_eq_false_2 in Hh; [done|].
        rewrite (Hc _ _ H1). by inversion 1. }
      destruct (new_Branch r (to_branch a) (upstream a)) as [rm|tb] eqn:H2.
      { cbn [snd] in Hh. rewrite bool_decide_eq_false_2 in Hh; [done|].
        rewrite (Hc _ _ H2). by inversion 1. }
      pose proof (fetch_branches_obj_error [fb; tb] (verbose a) r attr) as Hfe.
      change (Obj <$> [fb; tb]) with [Obj fb; Obj tb] in Hfe.
      unfold prepend, bind in Hp.
      destruct (_fetch_branches bc [Obj fb; Obj tb] (verbose a) r)
        as [[r2 l2] [e2|[]]]; cbn [fst snd] in *.
      + by injection Hp as _ _ ->.
      + rewrite check_branches_obj in Hp.
        destruct (truthy (remote fb)); [|done]. cbn [negb] in Hp.
        destruct (truthy (remote tb)); [done|].
        by destruct (bool_decide _).
    - rewrite (bind_prepend _ _ _ _ _ _ Hp).
      apply preflight_ok_iff in Hp as (fb & tb & flog & Hfacts & -> & ->).
      cbv beta iota. unfold prepend, bind.
      rewrite check_addon_exists_obj.
      destruct (rev_parse r1 (ref fb)) as [c|]; [|done].
      by destruct (bool_decide _). }
  split; [done|]. intros attr Hres. specialize (Hbd attr).
  destruct (before_dispatch bc new_Branch a r) as [[r1 l1] [e|wa]] eqn:Hb.
  - rewrite (main_stops _ _ _ _ _ Hb) in Hres. cbn [snd] in *. congruence.
  - pose proof Hb as Hb'.
    apply before_dispatch_ok_iff in Hb'
      as (fb & tb & flog & cf & Hfacts & Hcf & Hin & -> & ->).
    destruct (rev_parse r1 (ref tb)) as [ct|] eqn:Hct.
    + destruct (preflight_facts_repo _ _ _ _ _ _ Hfacts)
        as (_ & _ & _ & _ & _ & Hflog).
      rewrite (main_dispatched a r r1 fb tb flog cf ct) by done.
      cbn [fst snd]. by rewrite runs_full_log.
    + rewrite main_before_dispatch, (bind_prepend _ _ _ _ _ _ Hb) in Hres.
      by rewrite (dispatch_eval_none _ tb r1) in Hres.
Qed.

End Run.

(** ** The program at work on the [wms] clone *)

(** [origin/14.0] is bound to [origin]; a bare name goes to the default
    remote, and to nothing when that remote is unknown. *)
Example Branch_of_spec_prefixed :
  Branch_of_spec wms "origin/14.0" "upstream" = inr branch_14.
Proof. vm_compute. reflexivity. Qed.

Example Branch_of_spec_bare :
  Branch_of_spec wms "14.0" "origin" = inr branch_14 ∧
  Branch_of_spec wms "14.0" "upstream" = inl "upstream".
Proof. split; vm_compute; reflexivity. Qed.

(** The constructor gives up only on a default remote that is not
    configured. *)
Lemma Branch_of_spec_error_unconfigured r nm default_remote rm :
  Branch_of_spec r nm default_remote = inl rm →
  rm = default_remote ∧ remotes r !! rm = None.
Proof.
  unfold Branch_of_spec.
  assert (H : (if bool_decide (is_Some (heads r !! nm))
               then inr (mkBranch nm None)
               else if bool_decide (is_Some (remotes r !! default_remote))
                    then inr (mkBranch nm (Some default_remote))
                    else inl default_remote) = inl rm →
              rm = default_remote ∧ remotes r !! rm = None).
  { destruct (bool_decide (is_Some (heads r !! nm))); [done|].
    destruct (bool_decide (is_Some (remotes r !! default_remote))) eqn:Hrm;
      [done|].
    intros [= <-]. split; [done|]. apply bool_decide_eq_false in Hrm.
    by apply eq_None_not_Some. }
  destruct (split_slash nm) as [[pre rest]|]; [|done].
  by destruct (bool_decide (is_Some (remotes r !! pre))).
Qed.

(** [shopfloor] is a directory on 13.0 and only a file on 14.0: the
    addon is migrated.  [stock_x] is a directory on both: its pull
    requests are ported. *)
Example shopfloor_is_migrated :
  dispatch_decision
    (main ansi Branch_of_spec workflow_returns port_shopfloor wms).1.2
  = Some MigrateAddon.
Proof. vm_compute. reflexivity. Qed.

Example stock_x_is_ported :
  dispatch_decision
    (main ansi Branch_of_spec workflow_returns port_stock_x wms).1.2
  = Some PortAddonPullRequest.
Proof. vm_compute. reflexivity. Qed.

(** The calls of the run that migrates [shopfloor]. *)
Example shopfloor_calls :
  take 8 (main ansi Branch_of_spec workflow_returns port_shopfloor wms).1.2
  = [EIsDirty; ENewBranch "13.0" "origin"; ENewBranch "14.0" "origin";
     EFetch "origin" "13.0"; EFetch "origin" "14.0"; ECommit "origin/13.0";
     ENewInputStorage (Obj branch_14) "shopfloor"; ECommit "origin/14.0"].
Proof. vm_compute. reflexivity. Qed.

(** In the single-branch clone of 13.0 no fetch moves [origin/14.0]:
    a ref of that name left from earlier days is read as it stands, and
    decides. *)
Example stale_ref_decides :
  let port_left := set_remote_refs (insert "origin/14.0" tree_13) wms_13_only in
  let migrate_left :=
    set_remote_refs (insert "origin/14.0" tree_14) wms_13_only in
  same_repository port_left migrate_left ∧
  dispatch_decision
    (main ansi Branch_of_spec workflow_returns port_shopfloor_remote
       port_left).1.2
  = Some PortAddonPullRequest ∧
  dispatch_decision
    (main ansi Branch_of_spec workflow_returns port_shopfloor_remote
       migrate_left).1.2
  = Some MigrateAddon.
Proof.
  cbv zeta. split; [|split].
  - unfold same_repository. split_and!; reflexivity.
  - vm_compute. reflexivity.
  - vm_compute. reflexivity.
Qed.

(** Untracked files alone do not stop the run. *)
Example untracked_files_are_not_dirty :
  untracked wms = true ∧
  (main ansi Branch_of_spec workflow_returns port_shopfloor wms).2 = inr ().
Proof. split; vm_compute; reflexivity. Qed.

(** A target that is only a local head passes [_check_branches]; one
    that is neither bound nor a local head does not. *)
Example local_target_passes :
  (_check_branches ansi (Obj branch_13) (Obj local_mig)
     (wms_with_head "14.0-mig")).2 = inr true.
Proof. vm_compute. reflexivity. Qed.

Example unknown_target_fails :
  (_check_branches ansi (Obj branch_13) (Obj local_mig) wms).2
  = inl (ClickException (no_target_branch_msg ansi "14.0-mig" "14.0-mig")).
Proof. vm_compute. reflexivity. Qed.

(** Both fetches are made when the server has both branches. *)
Example both_branches_fetched :
  fetches (_fetch_branches ansi (Obj <$> [branch_13; branch_14]) true wms).1.2
  = [("origin", "13.0"); ("origin", "14.0")].
Proof. vm_compute. reflexivity. Qed.

(** ** The claims on the [wms] clone *)



Lemma dirty_aborts_before_fetch_witness :
  main ansi Branch_of_spec workflow_returns port_shopfloor wms_dirty
  = (wms_dirty, [EIsDirty], inl (ClickException dirty_msg)) ∧
  fetches
    (main ansi Branch_of_spec workflow_returns port_shopfloor wms_dirty).1.2
  = [].
Proof.
  apply (dirty_aborts_before_fetch ansi Branch_of_spec workflow_returns
           port_shopfloor wms_dirty).
  right. reflexivity.
Defined.



(** C4 as stated fails: the server has no 13.0 branch, the first fetch
    fails, and the bound reference to 14.0 is never fetched. *)
Lemma fetch_stops_at_failure :
  fetches
    (_fetch_branches ansi (Obj <$> [branch_13; branch_14]) false
       wms_without_13).1.2
  = [("origin", "13.0")] ∧
  bound_refs [branch_13; branch_14]
  = [("origin", "13.0"); ("origin", "14.0")] ∧
  fetches
    (_fetch_branches ansi (Obj <$> [branch_13; branch_14]) false
       wms_without_13).1.2
  ≠ bound_refs [branch_13; branch_14].
Proof.
  split_and!; [vm_compute; reflexivity|vm_compute; reflexivity|].
  vm_compute. discriminate.
Qed.

Lemma unknown_fork_aborts_witness :
  let rn := resolved_repo_name port_shopfloor_fork wms in
  let msg := no_remote_msg ansi rn "camptocamp" +:+ user_org_hint ansi in
  main ansi Branch_of_spec workflow_returns port_shopfloor_fork wms
  = (wms, [EIsDirty; EInRemotes "camptocamp"], inl (ClickException msg)) ∧
  contains msg ("$ git remote add " +:+ "camptocamp" +:+ " " +:+
                "git@github.com:" +:+ "camptocamp" +:+ "/" +:+ rn +:+ ".git") ∧
  contains msg ("$ git remote add " +:+ "camptocamp" +:+ " " +:+
                "https://github.com/" +:+ "camptocamp" +:+ "/" +:+ rn +:+
                ".git") ∧
  fetches
    (main ansi Branch_of_spec workflow_returns port_shopfloor_fork wms).1.2
  = [].
Proof.
  apply (unknown_fork_aborts ansi Branch_of_spec workflow_returns
           port_shopfloor_fork wms "camptocamp").
  - reflexivity.
  - reflexivity.
  - reflexivity.
  - discriminate.
  - vm_compute. reflexivity.
Defined.

(** C6 as stated fails: with an unknown [--fork] remote on the dirty
    clone, the error is the one of the dirty check and holds no
    [git remote add] line. *)
Lemma unknown_fork_on_dirty_tree :
  fork port_shopfloor_fork = Some "camptocamp" ∧
  remotes wms_dirty !! "camptocamp" = None ∧
  ¬ ∃ msg,
      (main ansi Branch_of_spec workflow_returns port_shopfloor_fork
         wms_dirty).2
      = inl (ClickException msg) ∧
      contains msg "git remote add".
Proof.
  split_and!; [reflexivity|vm_compute; reflexivity|].
  intros (msg & H & Hc). vm_compute in H. injection H as <-.
  apply contains_occurs in Hc. vm_compute in Hc. discriminate.
Qed.

(** C7 as stated fails: the run on the clean clone checks for
    uncommitted changes before it resolves any branch, so its log is not
    in the order the specification gives. *)
Lemma dirty_check_before_resolution :
  take 3 (main ansi Branch_of_spec workflow_returns port_shopfloor wms).1.2
  = [EIsDirty; ENewBranch "13.0" "origin"; ENewBranch "14.0" "origin"] ∧
  in_order_by stage_in_spec 0
    (main ansi Branch_of_spec workflow_returns port_shopfloor wms).1.2
  = false.
Proof. split; vm_compute; reflexivity. Qed.

Lemma dispatch_decision_deterministic_witness :
  let left_behind :=
    (main ansi Branch_of_spec workflow_returns port_shopfloor wms).1.1 in
  dispatch_decision
    (main ansi Branch_of_spec workflow_returns port_shopfloor
       left_behind).1.2
  = dispatch_decision
      (main ansi Branch_of_spec workflow_returns port_shopfloor wms).1.2.
Proof.
  apply (dispatch_decision_deterministic ansi Branch_of_spec workflow_returns
           port_shopfloor wms).
  - split_and!; vm_compute; reflexivity.
  - intros k. right. vm_compute. reflexivity.
  - vm_compute. reflexivity.
  - vm_compute. reflexivity.
Defined.

(** ** The further properties on the [wms] clone *)

Lemma value_error_unknown_remote_witness :
  main ansi Branch_of_spec workflow_returns port_from_nowhere wms
  = (wms, EIsDirty :: fork_log port_from_nowhere ++
          parse_log Branch_of_spec port_from_nowhere wms,
     inl (ClickException
            (no_remote_msg ansi (resolved_repo_name port_from_nowhere wms)
               "nowhere"))) ∧
  fetches (main ansi Branch_of_spec workflow_returns port_from_nowhere wms).1.2
  = [] ∧
  runs (main ansi Branch_of_spec workflow_returns port_from_nowhere wms).1.2
  = [].
Proof.
  apply (value_error_unknown_remote ansi Branch_of_spec workflow_returns
           port_from_nowhere wms "nowhere").
  - reflexivity.
  - reflexivity.
  - reflexivity.
  - vm_compute. reflexivity.
  - vm_compute. reflexivity.
Defined.

Lemma fetch_returns_only_if_witness :
  (∀ x, x ∈ [Obj branch_13; Obj branch_14] →
        ∃ b, x = Obj b ∧ fetchable (remotes wms) b = true) ∧
  remotes (_fetch_branches ansi [Obj branch_13; Obj branch_14] false wms).1.1
  = remotes wms.
Proof.
  apply (fetch_returns_only_if ansi [Obj branch_13; Obj branch_14] false wms
           (_fetch_branches ansi [Obj branch_13; Obj branch_14] false wms).1.1
           (_fetch_branches ansi [Obj branch_13; Obj branch_14] false wms).1.2).
  vm_compute. reflexivity.
Defined.

Lemma returns_only_through_workflow_witness :
  ∃ wf wa,
    runs (main ansi Branch_of_spec workflow_returns port_stock_x wms).1.2
    = [(wf, wa)].
Proof.
  apply (returns_only_through_workflow ansi Branch_of_spec workflow_returns
           port_stock_x wms).
  vm_compute. reflexivity.
Defined.

Lemma workflow_preconditions_witness :
  let wa := workflow_args port_shopfloor wms branch_13 branch_14 in
  staged wms = false ∧ unstaged wms = false ∧
  ∃ fb tb r1 cf,
    Branch_of_spec wms (from_branch port_shopfloor) (upstream port_shopfloor)
    = inr fb ∧
    Branch_of_spec wms (to_branch port_shopfloor) (upstream port_shopfloor)
    = inr tb ∧
    wa_from_branch wa = Obj fb ∧ wa_to_branch wa = Obj tb ∧
    truthy (remote fb) = true ∧
    only_tracking_refs_moved wms r1 ∧
    rev_parse r1 (ref fb) = Some cf ∧ addon port_shopfloor ∈ tree_trees cf ∧
    (main ansi Branch_of_spec workflow_returns port_shopfloor wms).1.1
    = (workflow_returns MigrateAddon wa r1).1.
Proof.
  apply (workflow_preconditions ansi Branch_of_spec workflow_returns
           port_shopfloor wms MigrateAddon
           (workflow_args port_shopfloor wms branch_13 branch_14)).
  apply elem_of_cons. left. vm_compute. reflexivity.
Defined.

Lemma workflow_argument_defaults_witness :
  let wa := workflow_args port_shopfloor_loud wms branch_13 branch_14 in
  wa_upstream_org wa = upstream_org port_shopfloor_loud ∧
  wa_repo_name wa
  = match repo_name port_shopfloor_loud with
    | None => cwd_basename wms
    | Some "" => cwd_basename wms
    | Some nm => nm
    end ∧
  wa_fork wa = fork port_shopfloor_loud ∧
  wa_user_org wa
  = match user_org port_shopfloor_loud with
    | None => fork port_shopfloor_loud
    | Some "" => fork port_shopfloor_loud
    | Some org => Some org
    end ∧
  wa_addon wa = addon port_shopfloor_loud ∧
  wa_storage wa = mkInputStorage (wa_to_branch wa) (addon port_shopfloor_loud) ∧
  wa_verbose wa = verbose port_shopfloor_loud ∧
  wa_non_interactive wa = non_interactive port_shopfloor_loud.
Proof.
  apply (workflow_argument_defaults ansi Branch_of_spec workflow_returns
           port_shopfloor_loud wms MigrateAddon
           (workflow_args port_shopfloor_loud wms branch_13 branch_14)).
  apply elem_of_cons. left. vm_compute. reflexivity.
Defined.

Lemma decision_ignores_other_options_witness :
  dispatch_decision
    (main ansi Branch_of_spec workflow_returns port_shopfloor_loud wms).1.2
  = dispatch_decision
      (main ansi Branch_of_spec workflow_returns port_shopfloor wms).1.2.
Proof.
  apply (decision_ignores_other_options ansi Branch_of_spec workflow_returns
           port_shopfloor port_shopfloor_loud wms).
  split_and!; reflexivity.
Defined.

Lemma fetch_failure_aborts_witness :
  let out :=
    _fetch_branches ansi [Obj branch_13; Obj branch_14]
      (verbose port_shopfloor) wms_without_13 in
  main ansi Branch_of_spec workflow_returns port_shopfloor wms_without_13
  = (out.1.1,
     EIsDirty :: fork_log port_shopfloor ++
     [ENewBranch (from_branch port_shopfloor) (upstream port_shopfloor);
      ENewBranch (to_branch port_shopfloor) (upstream port_shopfloor)] ++
     out.1.2,
     inl (GitCommandError "origin" "13.0")) ∧
  Forall (λ ev, (stage ev ≤ 3)%nat)
    (main ansi Branch_of_spec workflow_returns port_shopfloor
       wms_without_13).1.2.
Proof.
  apply (fetch_failure_aborts ansi Branch_of_spec workflow_returns
           port_shopfloor wms_without_13 branch_13 branch_14).
  - reflexivity.
  - reflexivity.
  - reflexivity.
  - vm_compute. reflexivity.
  - vm_compute. reflexivity.
  - vm_compute. reflexivity.
Defined.

Lemma local_source_refused_witness :
  let local_13 := {| name := "13.0"; remote := None |} in
  let out :=
    _fetch_branches ansi [Obj local_13; Obj branch_14]
      (verbose port_shopfloor) (wms_with_head "13.0") in
  main ansi Branch_of_spec workflow_returns port_shopfloor
    (wms_with_head "13.0")
  = (out.1.1,
     EIsDirty :: fork_log port_shopfloor ++
     [ENewBranch (from_branch port_shopfloor) (upstream port_shopfloor);
      ENewBranch (to_branch port_shopfloor) (upstream port_shopfloor)] ++
     out.1.2,
     inl (ClickException (no_source_branch_msg ansi (name local_13)))) ∧
  contains (no_source_branch_msg ansi (name local_13)) (name local_13).
Proof.
  apply (local_source_refused ansi Branch_of_spec workflow_returns
           port_shopfloor (wms_with_head "13.0")
           {| name := "13.0"; remote := None |} branch_14).
  - reflexivity.
  - reflexivity.
  - reflexivity.
  - vm_compute. reflexivity.
  - vm_compute. reflexivity.
  - reflexivity.
  - vm_compute. reflexivity.
Defined.

Lemma no_raw_string_past_handler_witness :
  (∀ attr,
     (before_dispatch ansi Branch_of_spec port_from_nowhere wms).2
     ≠ inl (AttributeError attr)) ∧
  (∀ attr,
     (main ansi Branch_of_spec workflow_returns port_from_nowhere wms).2
     = inl (AttributeError attr) →
     runs (main ansi Branch_of_spec workflow_returns port_from_nowhere wms).1.2
     ≠ []).
Proof.
  apply (no_raw_string_past_handler ansi Branch_of_spec workflow_returns
           port_from_nowhere wms).
  intros nm rm H.
  exact (proj2 (Branch_of_spec_error_unconfigured _ _ _ _ H)).
Defined.
